(** * AHisabKitab: the invoice pricing and aggregation engine

    A shallow embedding of [src/components/InvoiceEditor.tsx] (the row
    calculation, the row life cycle, the totals and [handleSave]) and of
    [src/services/storageService.ts] ([getInvoices], [saveInvoice]), with the
    interfaces of [src/types.ts].

    JavaScript numbers are IEEE 754 binary64 values, so they are modelled by
    Rocq's primitive [float]; every arithmetic operator of the source is the
    corresponding correctly rounded binary64 operation. *)

From Stdlib Require Import ZArith QArith Qround Floats Bool List Lia.
From stdpp Require Import base option list strings gmap.

Set Warnings "-inexact-float".

(** ** JavaScript numbers *)

Module JS.

(** [Number.isFinite]: neither [NaN] nor an infinity. *)
Definition SF_finite (x : spec_float) : bool :=
  match x with
  | S754_zero _ | S754_finite _ _ _ => true
  | S754_infinity _ | S754_nan => false
  end.

Definition isFinite (x : float) : bool := SF_finite (Prim2SF x).

(** [x === 0] and [x !== 0] on numbers ([-0 === 0], [NaN !== 0]). *)
Definition is0 (x : float) : bool := PrimFloat.eqb x 0%float.

(** The text [x.toFixed(2)] produces, kept structured instead of as
    characters: ["NaN"], ["Infinity"] / ["-Infinity"], the exponent-free
    decimal with two fractional digits whose digits are those of the integer
    [n] (so it denotes [n/100], with a leading ["-"] when [neg]), or, from
    [1e21] on, the text of [Number::toString]. *)
Inductive numeral :=
| Lit_NaN
| Lit_Infinity (neg : bool)
| Lit_fixed (neg : bool) (n : Z)
| Lit_toString (x : float).

(** The integer [n] for which [n / 100 - m * 2^e] is as close to zero as
    possible, the larger one when there are two (ECMA-262,
    Number.prototype.toFixed, step 10.a); computed exactly on integers. *)
Definition hundredths (m : positive) (e : Z) : Z :=
  match e with
  | Zneg k => (2 * (Zpos m * 100) + 2 ^ Zpos k) / 2 ^ (Zpos k + 1)
  | _ => Zpos m * 2 ^ e * 100
  end.

(** [10^21 <= m * 2^e], exactly. *)
Definition ge_1e21 (m : positive) (e : Z) : bool :=
  match e with
  | Zneg k => (10 ^ 21 * 2 ^ Zpos k <=? Zpos m)%Z
  | _ => (10 ^ 21 <=? Zpos m * 2 ^ e)%Z
  end.

(** [x.toFixed(2)]. The sign is taken off first ([x < 0], which [-0] is
    not), so ties are rounded away from zero. *)
Definition toFixed2 (x : float) : numeral :=
  match Prim2SF x with
  | S754_nan => Lit_NaN
  | S754_infinity s => Lit_Infinity s
  | S754_zero _ => Lit_fixed false 0
  | S754_finite s m e =>
      if ge_1e21 m e then Lit_toString x else Lit_fixed s (hundredths m e)
  end.

(** [Number(text)] on the texts above: the binary64 value nearest to the
    decimal (ties to even), which the division of the two integers by
    [SF64div] computes with a single rounding; ["-0.00"] is [-0]; the text
    of [Number::toString] reads back as the number it was printed from. *)
Definition Number (t : numeral) : float :=
  match t with
  | Lit_NaN => nan
  | Lit_Infinity s => if s then neg_infinity else infinity
  | Lit_toString x => x
  | Lit_fixed s Z0 => SF2Prim (S754_zero s)
  | Lit_fixed s (Zpos n) =>
      SF2Prim (SF64div (S754_finite s n 0) (S754_finite false 100 0))
  | Lit_fixed _ (Zneg _) => nan
  end.

(** [Number(x.toFixed(2))], the idiom of [calculateRow]. *)
Definition round2 (x : float) : float := Number (toFixed2 x).

(** A property read off an object: absent or [undefined], [null] (what
    [JSON] leaves of a number it cannot write), or a number. *)
Inductive jsnum := NUndef | NNull | Num (x : float).

(** [ToNumber]. *)
Definition ToNumber (v : jsnum) : float :=
  match v with NUndef => nan | NNull => 0%float | Num x => x end.

(** [v > 0]: both sides go through [ToNumber]. *)
Definition gt0 (v : jsnum) : bool := PrimFloat.ltb 0%float (ToNumber v).

(** [v !== 0]: strict, so [undefined] and [null] differ from [0]. *)
Definition strict_ne0 (v : jsnum) : bool :=
  match v with Num x => negb (is0 x) | _ => true end.

End JS.
Export JS.

(** ** Arrays

    An element of a JavaScript array as the code can meet it: an empty slot
    (left behind when an index beyond the end is written), [undefined],
    [null] (what [JSON] makes of both) or an object. *)

Inductive slot (A : Type) :=
| Hole
| Undef
| Null
| Obj (o : A).
Arguments Hole {A}.
Arguments Undef {A}.
Arguments Null {A}.
Arguments Obj {A} o.

Section Arrays.
Context {A : Type}.

(** [[...a]]: the iterator reads an empty slot as [undefined]. *)
Definition spread (a : list (slot A)) : list (slot A) :=
  map (fun s => match s with Hole => Undef | _ => s end) a.

(** [{...a[i]}] for an object type whose empty object is [empty]:
    spreading [undefined] or [null] (a missing, empty or nulled element)
    copies nothing. *)
Definition spread_at (empty : A) (a : list (slot A)) (i : nat) : A :=
  match a !! i with
  | Some (Obj o) => o
  | _ => empty
  end.

(** An array index is an integer below [2^32 - 1]; the other property
    keys are not elements. *)
Definition is_array_index (i : nat) : bool := (N.of_nat i <? 4294967295)%N.

(** [a[i] = v] for a non-negative integer [i] (the indices the table passes
    are those of [items.map]): in range the element is replaced; past the
    end, an array index makes the array grow to length [i + 1], the slots
    in between staying empty; a key that is not an array index becomes an
    ordinary property of the array object, and the length and the elements
    are as they were. The list is the elements: such a property is not
    in it (no spread, [splice], [map], [reduce], [length] or
    [JSON.stringify] sees one; only a read at that same key would). *)
Definition array_set (a : list (slot A)) (i : nat) (v : slot A) : list (slot A) :=
  if decide (i < length a) then <[i := v]> a
  else if is_array_index i then a ++ replicate (i - length a) Hole ++ [v]
  else a.

(** [a.splice(i, 1)]: removes the element at [i] if there is one. *)
Definition splice_delete (a : list (slot A)) (i : nat) : list (slot A) :=
  take i a ++ drop (S i) a.

(** [a.splice(i, 0, v)]: inserts [v] before position [i], at the end when
    [i] is past it. *)
Definition splice_insert (a : list (slot A)) (i : nat) (v : slot A) : list (slot A) :=
  take i a ++ v :: drop i a.

(** [a.reduce((sum, x) => sum + f(x), 0)] for a callback that reads a
    property of [x]: empty slots are skipped, and reading a property of
    [undefined] or [null] throws a [TypeError] ([None]). *)
Fixpoint reduce_sum (f : A -> float) (a : list (slot A)) (sum : float) : option float :=
  match a with
  | [] => Some sum
  | Hole :: a' => reduce_sum f a' sum
  | Obj o :: a' => reduce_sum f a' (sum + f o)%float
  | (Undef | Null) :: _ => None
  end.

End Arrays.

(** ** [src/types.ts] *)

(** [interface InvoiceItem], as the type checker sees it. *)
Module InvoiceItem.
Record t := mk {
  id : string;
  name : string;
  qty : float;
  rate : float;
  tp : float;
  discount : float;
  totalPerPiece : float;
  totalAmount : float
}.
End InvoiceItem.

(** An item object as it exists at run time: any property may be missing
    (the object spread of an element that is not there has none). *)
Module ItemObj.
Record t := mk {
  id : option string;
  name : option string;
  qty : jsnum;
  rate : jsnum;
  tp : jsnum;
  discount : jsnum;
  totalPerPiece : jsnum;
  totalAmount : jsnum
}.

(** [{}] *)
Definition empty : t := mk None None NUndef NUndef NUndef NUndef NUndef NUndef.

(** A well-typed item is the object with every property present. *)
Definition of_item (i : InvoiceItem.t) : t :=
  mk (Some (InvoiceItem.id i)) (Some (InvoiceItem.name i))
     (Num (InvoiceItem.qty i)) (Num (InvoiceItem.rate i))
     (Num (InvoiceItem.tp i)) (Num (InvoiceItem.discount i))
     (Num (InvoiceItem.totalPerPiece i)) (Num (InvoiceItem.totalAmount i)).
End ItemObj.

(** [interface PaymentRow]. *)
Module PaymentRow.
Record t := mk {
  id : string;
  narration : string;
  amount : float
}.
End PaymentRow.

Module PaymentObj.
Record t := mk {
  id : option string;
  narration : option string;
  amount : jsnum
}.
Definition empty : t := mk None None NUndef.
Definition of_payment (p : PaymentRow.t) : t :=
  mk (Some (PaymentRow.id p)) (Some (PaymentRow.narration p))
     (Num (PaymentRow.amount p)).
End PaymentObj.

(** [enum InvoiceStatus]. *)
Inductive InvoiceStatus := PENDING | PAID.

(** The arrays of a well-typed editor or invoice. *)
Definition item_array (its : list InvoiceItem.t) : list (slot ItemObj.t) :=
  map (fun i => Obj (ItemObj.of_item i)) its.
Definition payment_array (ps : list PaymentRow.t) : list (slot PaymentObj.t) :=
  map (fun p => Obj (PaymentObj.of_payment p)) ps.

(** [interface Invoice], as the type checker sees it. *)
Module Invoice.
Record t := mk {
  id : string;
  name : string;
  date : string;
  items : list InvoiceItem.t;
  payments : list PaymentRow.t;
  status : InvoiceStatus;
  totalAmount : float;
  remainingBalance : float;
  createdAt : float
}.
End Invoice.

(** An invoice object at run time, which is also what the store holds. *)
Module InvoiceObj.
Record t := mk {
  id : string;
  name : string;
  date : string;
  items : list (slot ItemObj.t);
  payments : list (slot PaymentObj.t);
  status : InvoiceStatus;
  totalAmount : jsnum;
  remainingBalance : jsnum;
  createdAt : jsnum
}.
Definition of_invoice (v : Invoice.t) : t :=
  mk (Invoice.id v) (Invoice.name v) (Invoice.date v)
     (item_array (Invoice.items v)) (payment_array (Invoice.payments v))
     (Invoice.status v)
     (Num (Invoice.totalAmount v)) (Num (Invoice.remainingBalance v))
     (Num (Invoice.createdAt v)).
End InvoiceObj.

(** ** The pricing engine: [calculateRow] *)

Section Pricing.
Local Open Scope float_scope.

Definition calculateRow (item : ItemObj.t) : ItemObj.t :=
  (* 1. Calculate TP: Rate - 14.5% *)
  let tp := if gt0 (ItemObj.rate item)
            then ToNumber (ItemObj.rate item) * (1 - 0.145) else 0 in
  (* 2. Logic for Discount/Extra Charge *)
  let finalUnit :=
    if strict_ne0 (ItemObj.discount item) then
      let baseForDiscount := tp * (1 - 0.15) in
      let percentageDecimal := ToNumber (ItemObj.discount item) / 100 in
      baseForDiscount + (baseForDiscount * percentageDecimal)
    else tp in
  (* 3. Total Amount *)
  let totalAmt := finalUnit * ToNumber (ItemObj.qty item) in
  ItemObj.mk (ItemObj.id item) (ItemObj.name item)
    (ItemObj.qty item) (ItemObj.rate item)
    (Num (round2 tp))
    (ItemObj.discount item)
    (Num (round2 finalUnit))
    (Num (round2 totalAmt)).

(** The algorithm in the words of the specification's section 4.1, on
    numbers, before any rounding: steps 1 to 4. *)
Definition spec_tradePrice (rate : float) : float :=
  if 0 <? rate then rate * (1 - 0.145) else 0.

Definition spec_discountBase (rate : float) : float :=
  spec_tradePrice rate * (1 - 0.15).

Definition spec_effectiveUnitPrice (rate discountPercent : float) : float :=
  if is0 discountPercent then spec_tradePrice rate
  else spec_discountBase rate + spec_discountBase rate * (discountPercent / 100).

Definition spec_lineTotal (rate discountPercent quantity : float) : float :=
  spec_effectiveUnitPrice rate discountPercent * quantity.

End Pricing.

(** ** The invoice aggregator: the editor's state and its operations *)

(** The [useState] cells of [InvoiceEditor]. *)
Record Editor := mkEditor {
  invoiceName : string;
  invoiceDate : string;
  items : list (slot ItemObj.t);
  payments : list (slot PaymentObj.t);
  status : InvoiceStatus
}.

(** [{ ...o, [field]: value }] on an item. [updateItem] takes
    [field : keyof InvoiceItem] and [value : any]; every caller passes a
    string for a string property and [Number(...)] for a numeric one, which
    is how the pairs are typed here. *)
Inductive item_assign :=
| Set_id (value : string)
| Set_name (value : string)
| Set_qty (value : float)
| Set_rate (value : float)
| Set_tp (value : float)
| Set_discount (value : float)
| Set_totalPerPiece (value : float)
| Set_totalAmount (value : float).

Definition assign_item (a : item_assign) (o : ItemObj.t) : ItemObj.t :=
  let '(ItemObj.mk i n q r t d u l) := o in
  match a with
  | Set_id v => ItemObj.mk (Some v) n q r t d u l
  | Set_name v => ItemObj.mk i (Some v) q r t d u l
  | Set_qty v => ItemObj.mk i n (Num v) r t d u l
  | Set_rate v => ItemObj.mk i n q (Num v) t d u l
  | Set_tp v => ItemObj.mk i n q r (Num v) d u l
  | Set_discount v => ItemObj.mk i n q r t (Num v) u l
  | Set_totalPerPiece v => ItemObj.mk i n q r t d (Num v) l
  | Set_totalAmount v => ItemObj.mk i n q r t d u (Num v)
  end.

(** [['rate', 'qty', 'discount'].includes(field)] *)
Definition recalculates (a : item_assign) : bool :=
  match a with
  | Set_rate _ | Set_qty _ | Set_discount _ => true
  | _ => false
  end.

Definition updateItem (index : nat) (a : item_assign)
    (items : list (slot ItemObj.t)) : list (slot ItemObj.t) :=
  let newItems := spread items in
  let currentItem := assign_item a (spread_at ItemObj.empty newItems index) in
  (* Recalculate logic if relevant fields change *)
  if recalculates a
  then array_set newItems index (Obj (calculateRow currentItem))
  else array_set newItems index (Obj currentItem).

(** [generateId()] draws from [Math.random]; the drawn identifier is an
    argument of every operation that calls it. *)
Definition addNewRow (newId : string) (prev : list (slot ItemObj.t)) : list (slot ItemObj.t) :=
  let newItem :=
    ItemObj.mk (Some newId) (Some EmptyString) (Num 0) (Num 0) (Num 0) (Num 0) (Num 0) (Num 0) in
  spread prev ++ [Obj newItem].

Definition deleteRow (index : nat) (items : list (slot ItemObj.t)) : list (slot ItemObj.t) :=
  if decide (1 < length items) then splice_delete (spread items) index
  else items.

Definition duplicateRow (index : nat) (newId : string)
    (items : list (slot ItemObj.t)) : list (slot ItemObj.t) :=
  let itemToCopy := spread_at ItemObj.empty items index in
  let newItem := assign_item (Set_id newId) itemToCopy in
  splice_insert (spread items) (index + 1) (Obj newItem).

(** Payment logic. *)
Inductive payment_assign :=
| Set_pid (value : string)
| Set_narration (value : string)
| Set_amount (value : float).

Definition assign_payment (a : payment_assign) (o : PaymentObj.t) : PaymentObj.t :=
  let '(PaymentObj.mk i n m) := o in
  match a with
  | Set_pid v => PaymentObj.mk (Some v) n m
  | Set_narration v => PaymentObj.mk i (Some v) m
  | Set_amount v => PaymentObj.mk i n (Num v)
  end.

Definition addPaymentRow (newId : string) (prev : list (slot PaymentObj.t)) : list (slot PaymentObj.t) :=
  spread prev ++ [Obj (PaymentObj.mk (Some newId) (Some EmptyString) (Num 0))].

Definition updatePayment (index : nat) (a : payment_assign)
    (payments : list (slot PaymentObj.t)) : list (slot PaymentObj.t) :=
  let newPayments := spread payments in
  array_set newPayments index (Obj (assign_payment a (spread_at PaymentObj.empty newPayments index))).

Definition deletePayment (index : nat) (payments : list (slot PaymentObj.t)) : list (slot PaymentObj.t) :=
  splice_delete (spread payments) index.

(** Totals, recomputed at every render. [None]: the reducer met an element
    that is [undefined] or [null] and threw. *)
Definition grandTotal (items : list (slot ItemObj.t)) : option float :=
  reduce_sum (fun item => ToNumber (ItemObj.totalAmount item)) items 0%float.

Definition totalPaid (payments : list (slot PaymentObj.t)) : option float :=
  reduce_sum (fun p => ToNumber (PaymentObj.amount p)) payments 0%float.

Definition remainingBalance (st : Editor) : option float :=
  g ← grandTotal (items st);
  p ← totalPaid (payments st);
  Some (g - p)%float.

(** What the user can do to the editor between two renders. *)
Inductive action :=
| SetInvoiceName (value : string)
| SetInvoiceDate (value : string)
| SetStatus (value : InvoiceStatus)
| UpdateItem (index : nat) (a : item_assign)
| AddNewRow (newId : string)
| DeleteRow (index : nat)
| DuplicateRow (index : nat) (newId : string)
| AddPaymentRow (newId : string)
| UpdatePayment (index : nat) (a : payment_assign)
| DeletePayment (index : nat).

Definition step (st : Editor) (act : action) : Editor :=
  let '(mkEditor n d its ps s) := st in
  match act with
  | SetInvoiceName v => mkEditor v d its ps s
  | SetInvoiceDate v => mkEditor n v its ps s
  | SetStatus v => mkEditor n d its ps v
  | UpdateItem i a => mkEditor n d (updateItem i a its) ps s
  | AddNewRow newId => mkEditor n d (addNewRow newId its) ps s
  | DeleteRow i => mkEditor n d (deleteRow i its) ps s
  | DuplicateRow i newId => mkEditor n d (duplicateRow i newId its) ps s
  | AddPaymentRow newId => mkEditor n d its (addPaymentRow newId ps) s
  | UpdatePayment i a => mkEditor n d its (updatePayment i a ps) s
  | DeletePayment i => mkEditor n d its (deletePayment i ps) s
  end.

Definition run (st : Editor) (acts : list action) : Editor :=
  fold_left step acts st.

(** The editor of a new invoice ([existingInvoiceId] is [null]): the initial
    cells, then the effect's [addNewRow()]. [today] is the date the
    component was mounted on. *)
Definition newEditor (today newId : string) : Editor :=
  step (mkEditor EmptyString today [] [] PENDING) (AddNewRow newId).

(** ** Persistence: [storageService] over [localStorage] *)

(** [JSON.parse(JSON.stringify(v))], on the values of this program. A number
    is written in the shortest decimal form that reads back as itself,
    except that [NaN] and the infinities are written [null] and [-0] is
    written [0]; a property whose value is [undefined] is left out; an
    array element that is empty or [undefined] is written [null]. Strings
    come back as they were. *)
Module JSON.

Definition num (v : jsnum) : jsnum :=
  match v with
  | Num x => if isFinite x then (if is0 x then Num 0 else Num x) else NNull
  | NNull => NNull
  | NUndef => NUndef
  end.

Arguments num : simpl never.

Definition element {A : Type} (f : A -> A) (s : slot A) : slot A :=
  match s with
  | Obj o => Obj (f o)
  | Hole | Undef | Null => Null
  end.

Definition item (o : ItemObj.t) : ItemObj.t :=
  ItemObj.mk (ItemObj.id o) (ItemObj.name o)
    (num (ItemObj.qty o)) (num (ItemObj.rate o)) (num (ItemObj.tp o))
    (num (ItemObj.discount o)) (num (ItemObj.totalPerPiece o))
    (num (ItemObj.totalAmount o)).

Definition payment (o : PaymentObj.t) : PaymentObj.t :=
  PaymentObj.mk (PaymentObj.id o) (PaymentObj.narration o) (num (PaymentObj.amount o)).

Definition invoice (v : InvoiceObj.t) : InvoiceObj.t :=
  InvoiceObj.mk (InvoiceObj.id v) (InvoiceObj.name v) (InvoiceObj.date v)
    (map (element item) (InvoiceObj.items v))
    (map (element payment) (InvoiceObj.payments v))
    (InvoiceObj.status v)
    (num (InvoiceObj.totalAmount v)) (num (InvoiceObj.remainingBalance v))
    (num (InvoiceObj.createdAt v)).

End JSON.

(** [localStorage], restricted to the invoice keys. A key holds the text
    [JSON.stringify] made of an array of invoices; the text is represented
    by that array, and parsing it yields the array's [JSON] image.
    [setItem] is taken to succeed (the quota is never reached). *)
Abbreviation localStorage := (gmap string (list InvoiceObj.t)).

Definition DATA_PREFIX : string := "hisaab_data_".

Definition getInvoices (username : string) (ls : localStorage) : list InvoiceObj.t :=
  match ls !! (DATA_PREFIX +:+ username) with
  | Some data => map JSON.invoice data
  | None => []
  end.

Definition saveInvoice (username : string) (invoice : InvoiceObj.t)
    (ls : localStorage) : localStorage :=
  let invoices := getInvoices username ls in
  let invoices' :=
    match list_find (fun inv => InvoiceObj.id inv = InvoiceObj.id invoice) invoices with
    | Some (existingIndex, _) => <[existingIndex := invoice]> invoices
    | None => invoices ++ [invoice]
    end in
  <[DATA_PREFIX +:+ username := invoices']> ls.

Definition deleteInvoice (username invoiceId : string) (ls : localStorage) : localStorage :=
  let invoices := getInvoices username ls in
  let updated := filter (fun inv => InvoiceObj.id inv ≠ invoiceId) invoices in
  <[DATA_PREFIX +:+ username := updated]> ls.

(** The editor's lookup of the invoice it is opened on:
    [getInvoices(username).find(i => i.id === existingInvoiceId)]. *)
Definition load (username invoiceId : string) (ls : localStorage) : option InvoiceObj.t :=
  snd <$> list_find (fun i => InvoiceObj.id i = invoiceId) (getInvoices username ls).

(** [existingInvoiceId || generateId()]: [null] and the empty string are
    both falsy. *)
Definition or_generated (existingInvoiceId : option string) (newId : string) : string :=
  match existingInvoiceId with
  | Some i => if decide (i = EmptyString) then newId else i
  | None => newId
  end.

(** The object [handleSave] builds; [now] is [Date.now()]. It exists only
    if the component rendered, that is if the totals did not throw. *)
Definition invoiceData (st : Editor) (existingInvoiceId : option string)
    (newId : string) (now : float) : option InvoiceObj.t :=
  g ← grandTotal (items st);
  r ← remainingBalance st;
  Some (InvoiceObj.mk (or_generated existingInvoiceId newId)
          (invoiceName st) (invoiceDate st) (items st) (payments st) (status st)
          (Num g) (Num r) (Num now)).

Definition handleSave (st : Editor) (username : string)
    (existingInvoiceId : option string) (newId : string) (now : float)
    (ls : localStorage) : localStorage :=
  if decide (invoiceName st = EmptyString) then ls (* alert, return *)
  else match invoiceData st existingInvoiceId newId now with
       | Some data => saveInvoice username data ls
       | None => ls
       end.

(** [Dashboard.toggleStatus]: the other caller of [saveInvoice]. *)
Definition toggleStatus (username : string) (invoice : InvoiceObj.t)
    (ls : localStorage) : localStorage :=
  let '(InvoiceObj.mk i n d its ps s t r c) := invoice in
  let updatedInvoice :=
    InvoiceObj.mk i n d its ps (match s with PAID => PENDING | PENDING => PAID end) t r c in
  saveInvoice username updatedInvoice ls.

(** The effect run when the editor is mounted on [existingInvoiceId]: the
    invoice found in the store fills the cells; an id that is not found
    leaves them as they were initialised; without an id ([null] or the
    empty string) one empty row is added. *)
Definition mountEditor (existingInvoiceId : option string) (today newId : string)
    (username : string) (ls : localStorage) : Editor :=
  match existingInvoiceId with
  | Some i =>
      if decide (i = EmptyString) then newEditor today newId
      else match load username i ls with
           | Some found =>
               mkEditor (InvoiceObj.name found) (InvoiceObj.date found)
                 (InvoiceObj.items found) (InvoiceObj.payments found)
                 (InvoiceObj.status found)
           | None => mkEditor EmptyString today [] [] PENDING
           end
  | None => newEditor today newId
  end.

(** ** Statements of the specification as predicates, and the inputs the
    code is examined at *)

Section Stated.
Local Open Scope float_scope.

(** "[lineTotal == round(effectiveUnitPrice * quantity, 2)]", with
    [effectiveUnitPrice] the rounded value stored on the item. *)
Definition lineTotal_from_stored_unit_price (r : ItemObj.t) : Prop :=
  ItemObj.totalAmount r
  = Num (round2 (ToNumber (ItemObj.totalPerPiece r) * ToNumber (ItemObj.qty r))).

(** "[effectiveUnitPrice == round(tradePrice*0.85 * (1 + discountPercent/100), 2)]",
    with the trade price [t] (before rounding, or as stored). *)
Definition unit_price_as_product (t : float) (r : ItemObj.t) : Prop :=
  ItemObj.totalPerPiece r
  = Num (round2 (t * 0.85 * (1 + ToNumber (ItemObj.discount r) / 100))).

(** "all-zero derived fields". *)
Definition all_zero (r : ItemObj.t) : Prop :=
  ItemObj.tp r = Num 0 /\ ItemObj.totalPerPiece r = Num 0 /\ ItemObj.totalAmount r = Num 0.

(** A line as the user typed it: the derived fields are still those of a
    blank row. *)
Definition typed_row (rate qty discount : float) : InvoiceItem.t :=
  InvoiceItem.mk "k3x9q1z" "Panadol" qty rate 0 discount 0 0.

End Stated.

(** The same product in exact rational arithmetic, in hundredths, rounded
    half up: how the formula reads when its operations are not taken as
    binary64 operations. *)
Definition exact_hundredths (rate discountPercent : Q) : Z :=
  Qfloor (rate * (1 - 0.145) * 0.85 * (1 + discountPercent / 100) * 100 + 1 / 2)%Q.

(** The sum of a list of numbers as [reduce] forms it: from [0], left to
    right, each addition the binary64 one. *)
Definition fsum (l : list float) : float := fold_left PrimFloat.add l 0%float.

(** The editor of a well-typed invoice. *)
Definition typed_editor (n d : string) (its : list InvoiceItem.t)
    (ps : list PaymentRow.t) (s : InvoiceStatus) : Editor :=
  mkEditor n d (item_array its) (payment_array ps) s.

(** [duplicateRow]'s copy of a well-typed item. *)
Definition with_id (newId : string) (it : InvoiceItem.t) : InvoiceItem.t :=
  InvoiceItem.mk newId (InvoiceItem.name it) (InvoiceItem.qty it) (InvoiceItem.rate it)
    (InvoiceItem.tp it) (InvoiceItem.discount it) (InvoiceItem.totalPerPiece it)
    (InvoiceItem.totalAmount it).

(** The rows [addNewRow] and [addPaymentRow] append. *)
Definition blank_item (newId : string) : InvoiceItem.t :=
  InvoiceItem.mk newId EmptyString 0 0 0 0 0 0.

(** An invoice of one line (rate 100, quantity 2, no discount; total
    171.00) with up to two payments of the amounts given. *)
Definition paid_editor (amounts : list float) : Editor :=
  typed_editor "March" "2026-03-01"
    [InvoiceItem.mk "k3x9q1z" "Panadol" 2 100 85.5 0 85.5 171]
    (zip_with (fun i a => PaymentRow.mk i "cash" a) ["p7w2m4c"; "q1e5t9u"] amounts)
    PENDING.

(** A number that [JSON] writes and reads back as itself: finite, and not
    the negative zero. *)
Definition json_exact (x : float) : bool :=
  match Prim2SF x with
  | S754_zero s => negb s
  | S754_finite _ _ _ => true
  | S754_infinity _ | S754_nan => false
  end.

Definition item_exact (it : InvoiceItem.t) : Prop :=
  json_exact (InvoiceItem.qty it) = true /\ json_exact (InvoiceItem.rate it) = true /\
  json_exact (InvoiceItem.tp it) = true /\ json_exact (InvoiceItem.discount it) = true /\
  json_exact (InvoiceItem.totalPerPiece it) = true /\
  json_exact (InvoiceItem.totalAmount it) = true.

Definition invoice_exact (v : Invoice.t) : Prop :=
  Forall item_exact (Invoice.items v) /\
  Forall (fun p => json_exact (PaymentRow.amount p) = true) (Invoice.payments v) /\
  json_exact (Invoice.totalAmount v) = true /\
  json_exact (Invoice.remainingBalance v) = true /\
  json_exact (Invoice.createdAt v) = true.

(** The invoice the editor saves after the user has typed rate 1e308 and
    quantity 10 into the first row of a new invoice named "Stock": the line
    total overflows. [1772323200000] is the [Date.now()] of the save. *)
Definition overflowing_actions : list action :=
  [SetInvoiceName "Stock"; UpdateItem 0 (Set_rate 1e308); UpdateItem 0 (Set_qty 10)].

Definition overflowing_invoice : Invoice.t :=
  Invoice.mk "f4h6j8l" "Stock" "2026-03-01"
    [InvoiceItem.mk "k3x9q1z" EmptyString 10 1e308 8.55e307 0 8.55e307 infinity] []
    PENDING infinity infinity 1772323200000.

(** An ordinary invoice: the one of [paid_editor [50; 30]]. *)
Definition march_invoice : Invoice.t :=
  Invoice.mk "f4h6j8l" "March" "2026-03-01"
    [InvoiceItem.mk "k3x9q1z" "Panadol" 2 100 85.5 0 85.5 171]
    [PaymentRow.mk "p7w2m4c" "cash" 50; PaymentRow.mk "q1e5t9u" "cash" 30]
    PENDING 171 91 1772323200000.

(** The editor reopened on [march_invoice], and the two times it is saved
    at. *)
Definition march_editor : Editor := paid_editor [50; 30]%float.
Definition first_save : float := 1772323200000.
Definition second_save : float := 1772409600000.

(** ** The dashboard and the store's other callers *)

(** The invoice [Dashboard.toggleStatus] saves:
    [{ ...invoice, status: invoice.status === PAID ? PENDING : PAID }]. *)
Definition updatedInvoice (invoice : InvoiceObj.t) : InvoiceObj.t :=
  InvoiceObj.mk (InvoiceObj.id invoice) (InvoiceObj.name invoice) (InvoiceObj.date invoice)
    (InvoiceObj.items invoice) (InvoiceObj.payments invoice)
    (match InvoiceObj.status invoice with PAID => PENDING | PENDING => PAID end)
    (InvoiceObj.totalAmount invoice) (InvoiceObj.remainingBalance invoice)
    (InvoiceObj.createdAt invoice).

(** What [toggleStatus] does to the dashboard's own list:
    [invoices.map(inv => inv.id === invoice.id ? updatedInvoice : inv)]. *)
Definition toggleStatus_view (invoice : InvoiceObj.t)
    (invoices : list InvoiceObj.t) : list InvoiceObj.t :=
  map (fun inv => if decide (InvoiceObj.id inv = InvoiceObj.id invoice)
                  then updatedInvoice invoice else inv) invoices.

(** A call of one of the writers of [storageService]. *)
Inductive store_call :=
| Call_saveInvoice (username : string) (invoice : InvoiceObj.t)
| Call_deleteInvoice (username invoiceId : string).

Definition call (ls : localStorage) (c : store_call) : localStorage :=
  match c with
  | Call_saveInvoice username invoice => saveInvoice username invoice ls
  | Call_deleteInvoice username invoiceId => deleteInvoice username invoiceId ls
  end.

(** The ids of a list of invoices, in order. *)
Definition ids (l : list InvoiceObj.t) : list string := map InvoiceObj.id l.

(** ** The editor as the rendered page drives it *)

(** [{ ...item, [field]: value }] on a well-typed item. *)
Definition assign_typed (a : item_assign) (it : InvoiceItem.t) : InvoiceItem.t :=
  let '(InvoiceItem.mk i n q r t d u l) := it in
  match a with
  | Set_id v => InvoiceItem.mk v n q r t d u l
  | Set_name v => InvoiceItem.mk i v q r t d u l
  | Set_qty v => InvoiceItem.mk i n v r t d u l
  | Set_rate v => InvoiceItem.mk i n q v t d u l
  | Set_tp v => InvoiceItem.mk i n q r v d u l
  | Set_discount v => InvoiceItem.mk i n q r t v u l
  | Set_totalPerPiece v => InvoiceItem.mk i n q r t d v l
  | Set_totalAmount v => InvoiceItem.mk i n q r t d u v
  end.

(** The derived fields of a well-typed item are current: they are what the
    pricing engine gives for its rate, discount and qty. *)
Definition current (it : InvoiceItem.t) : Prop :=
  InvoiceItem.tp it = round2 (spec_tradePrice (InvoiceItem.rate it)) /\
  InvoiceItem.totalPerPiece it
  = round2 (spec_effectiveUnitPrice (InvoiceItem.rate it) (InvoiceItem.discount it)) /\
  InvoiceItem.totalAmount it
  = round2 (spec_lineTotal (InvoiceItem.rate it) (InvoiceItem.discount it)
              (InvoiceItem.qty it)).

(** The assignments the cells of the two tables issue: [name], [qty],
    [rate] and [discount] of an item, [narration] and [amount] of a
    payment. *)
Definition cell_assign (a : item_assign) : bool :=
  match a with
  | Set_name _ | Set_qty _ | Set_rate _ | Set_discount _ => true
  | _ => false
  end.

Definition cell_passign (a : payment_assign) : bool :=
  match a with
  | Set_narration _ | Set_amount _ => true
  | Set_pid _ => false
  end.

(** An action the page rendered from [st] can issue: the handlers of a row
    are bound to the index of that row, as [items.map] and [payments.map]
    number them. *)
Definition issuable (st : Editor) (act : action) : bool :=
  match act with
  | UpdateItem i a => bool_decide (i < length (items st)) && cell_assign a
  | DeleteRow i | DuplicateRow i _ => bool_decide (i < length (items st))
  | UpdatePayment i a => bool_decide (i < length (payments st)) && cell_passign a
  | DeletePayment i => bool_decide (i < length (payments st))
  | SetInvoiceName _ | SetInvoiceDate _ | SetStatus _
  | AddNewRow _ | AddPaymentRow _ => true
  end.

(** The states the editor of a new invoice goes through. *)
Inductive reachable : Editor -> Prop :=
| reachable_new (today newId : string) : reachable (newEditor today newId)
| reachable_step (st : Editor) (act : action) :
    reachable st -> issuable st act = true -> reachable (step st act).

(** The invoice [handleSave] makes of a well-typed editor: the totals are
    the sums of the render. *)
Definition typed_snapshot (invoiceId : string) (n d : string) (its : list InvoiceItem.t)
    (ps : list PaymentRow.t) (s : InvoiceStatus) (now : float) : Invoice.t :=
  Invoice.mk invoiceId n d its ps s
    (fsum (map InvoiceItem.totalAmount its))
    (fsum (map InvoiceItem.totalAmount its) - fsum (map PaymentRow.amount ps))%float
    now.

(** Two assignments to the same field of an item. *)
Definition same_field (a b : item_assign) : bool :=
  match a, b with
  | Set_id _, Set_id _ | Set_name _, Set_name _ | Set_qty _, Set_qty _
  | Set_rate _, Set_rate _ | Set_tp _, Set_tp _ | Set_discount _, Set_discount _
  | Set_totalPerPiece _, Set_totalPerPiece _ | Set_totalAmount _, Set_totalAmount _ => true
  | _, _ => false
  end.

(** What [updateItem] puts at the index, given what it found there. *)
Definition updated_row (a : item_assign) (o : ItemObj.t) : ItemObj.t :=
  if recalculates a then calculateRow (assign_item a o) else assign_item a o.

(** ** Keyboard navigation in the items table: [handleKeyDown] *)

(** [cols], the columns of the grid, in order. *)
Inductive column :=
| C_name | C_qty | C_rate | C_tp | C_discount | C_totalPerPiece | C_totalAmount.

Definition cols : list column :=
  [C_name; C_qty; C_rate; C_tp; C_discount; C_totalPerPiece; C_totalAmount].

(** [cols.indexOf(field)] *)
Definition indexOf (field : column) : Z :=
  match field with
  | C_name => 0 | C_qty => 1 | C_rate => 2 | C_tp => 3
  | C_discount => 4 | C_totalPerPiece => 5 | C_totalAmount => 6
  end.

(** [e.key], as far as the handler tells keys apart, and [e.ctrlKey]. *)
Inductive key := ArrowUp | ArrowDown | ArrowLeft | ArrowRight | Key_d | Key_other.

Record KeyboardEvent := mkKey { ctrlKey : bool; key_of : key }.

Definition is_arrow (k : key) : bool :=
  match k with
  | ArrowUp | ArrowDown | ArrowLeft | ArrowRight => true
  | Key_d | Key_other => false
  end.

(** The row and the column index the handler computes ([length] is
    [items.length], [index] the row of the cell that has the focus). *)
Definition next_cell (k : key) (length : nat) (index : nat) (colIndex : Z) : Z * Z :=
  let nextRow :=
    match k with
    | ArrowUp => Z.max 0 (Z.of_nat index - 1)
    | ArrowDown => Z.min (Z.of_nat length - 1) (Z.of_nat index + 1)
    | _ => Z.of_nat index
    end in
  let nextCol :=
    match k with
    | ArrowLeft => Z.max 0 (colIndex - 1)
    | ArrowRight => Z.min (Z.of_nat (List.length cols) - 1) (colIndex + 1)
    | _ => colIndex
    end in
  (nextRow, nextCol).

(** [cols[i]] *)
Definition col_at (i : Z) : option column :=
  if (i <? 0)%Z then None else cols !! Z.to_nat i.

(** [document.getElementById(`cell-${row}-${col}`)] on the table rendered
    from [items]: a row that holds an item has an input with such an id in
    each column but the last, whose cell is plain text; [items.map] renders
    nothing for an empty slot. *)
Definition getCell (items : list (slot ItemObj.t)) (row : Z) (col : option column)
    : option (nat * column) :=
  match col with
  | Some C_totalAmount | None => None
  | Some c =>
      if (row <? 0)%Z then None
      else match items !! Z.to_nat row with
           | Some (Obj _) => Some (Z.to_nat row, c)
           | _ => None
           end
  end.

(** [handleKeyDown(e, index, field)]: the items it leaves and the cell it
    gives the focus to, if any. [field] is absent for a handler bound
    without one. *)
Definition handleKeyDown (e : KeyboardEvent) (index : nat) (field : option column)
    (newId : string) (items : list (slot ItemObj.t))
    : list (slot ItemObj.t) * option (nat * column) :=
  let items' :=
    (* Ctrl + D: Duplicate *)
    if ctrlKey e && match key_of e with Key_d => true | _ => false end
    then duplicateRow index newId items else items in
  let focus :=
    match field with
    | Some f =>
        if is_arrow (key_of e) then
          let '(nextRow, nextCol) := next_cell (key_of e) (length items) index (indexOf f) in
          getCell items nextRow (col_at nextCol)
        else None
    | None => None
    end in
  (items', focus).

(** The fields the table binds the handler with. *)
Definition bound_field (f : column) : bool :=
  match f with
  | C_name | C_qty | C_rate | C_discount => true
  | _ => false
  end.

(** ** The session: [login], [logout], [getCurrentUser], and [App] *)

Definition USER_KEY : string := "hisaab_current_user".

(** The browser's [localStorage] as this program uses it: what is under
    [USER_KEY] (the text of [{ username }], represented by the username) and
    what is under the keys of the invoices. No key of the second family is
    [USER_KEY] (see [storage_keys_distinct]). *)
Record Browser := mkBrowser {
  session : option string;
  stored : localStorage
}.

(** [login] resolves, after its delay, with the user it stored; the password
    is not looked at. *)
Definition login (username password : string) (b : Browser) : Browser * string :=
  (mkBrowser (Some username) (stored b), username).

Definition logout (b : Browser) : Browser := mkBrowser None (stored b).

Definition getCurrentUser (b : Browser) : option string := session b.

Inductive view := dashboard | editor.

(** The state of [App]. *)
Record App := mkApp {
  user : option string;
  currentView : view;
  selectedInvoiceId : option string
}.

(** What [App] renders. *)
Inductive screen :=
| LoginScreen
| DashboardScreen
| EditorScreen (existingInvoiceId : option string).

Definition render (a : App) : screen :=
  match user a with
  | None => LoginScreen
  | Some _ =>
      match currentView a with
      | editor => EditorScreen (selectedInvoiceId a)
      | dashboard => DashboardScreen
      end
  end.

(** Mounting [App]: the initial state, then the effect that restores the
    session. *)
Definition mountApp (b : Browser) : App :=
  mkApp (getCurrentUser b) dashboard None.

(** What the user can do on the screen shown. *)
Inductive event :=
| Submit (username password : string)
| ClickLogout
| SelectInvoice (invoiceId : option string)
| ClickBack
| Reload.

(** The handlers of [App], each reachable from the screen that offers it:
    [Login.handleSubmit] then [handleLogin], [handleLogout],
    [handleInvoiceSelect], [handleBackToDashboard]. An event the screen
    does not offer changes nothing. While [login] waits, the form's button
    is disabled and no other handler of [App] is on the screen, so a
    submission is one step. *)
Definition handle (ab : App * Browser) (ev : event) : App * Browser :=
  let '(a, b) := ab in
  match ev, render a with
  | Submit username password, LoginScreen =>
      if decide (username = EmptyString \/ password = EmptyString) then (a, b)
      else let '(b', loggedInUser) := login username password b in
           (mkApp (Some loggedInUser) dashboard (selectedInvoiceId a), b')
  | ClickLogout, DashboardScreen => (mkApp None dashboard None, logout b)
  | SelectInvoice i, DashboardScreen => (mkApp (user a) editor i, b)
  | ClickBack, EditorScreen _ => (mkApp (user a) dashboard None, b)
  | Reload, _ => (mountApp b, b)
  | _, _ => (a, b)
  end.

(** What holds of [App] and the browser between two events. *)
Definition app_invariant (ab : App * Browser) : Prop :=
  user (fst ab) = getCurrentUser (snd ab)
  /\ (currentView (fst ab) = dashboard -> selectedInvoiceId (fst ab) = None)
  /\ (user (fst ab) = None -> selectedInvoiceId (fst ab) = None).

(** A session of [App]: mounted in a browser, then the events in order. *)
Definition run_app (b : Browser) (events : list event) : App * Browser :=
  fold_left handle events (mountApp b, b).

(** ** The dashboard's search *)

Section Search.

(** [String.prototype.toLowerCase] is a parameter. *)
Variable toLowerCase : string -> string.

(** [s.includes(t)]: [t] occurs in [s]. *)
Fixpoint includes (s t : string) : bool :=
  String.prefix t s ||
  match s with
  | EmptyString => false
  | String _ s' => includes s' t
  end.

Definition filteredInvoices (invoices : list InvoiceObj.t) (searchTerm : string)
    : list InvoiceObj.t :=
  filter (fun inv =>
            includes (toLowerCase (InvoiceObj.name inv)) (toLowerCase searchTerm)
            || includes (InvoiceObj.date inv) searchTerm = true)
    invoices.

End Search.

(** * Theorems *)

(** ** Binary64 facts

    Dividing a finite number by 100 cannot overflow. The proof follows the
    rounding of [SpecFloat]: the quotient's exponent and size stay below
    the overflow threshold. *)

Section Div100.
Local Open Scope Z_scope.


Lemma digits2_pos_size (p : positive) : digits2_pos p = Pos.size p.
Proof. induction p; simpl; congruence. Qed.

Lemma Zdigits2_nonneg (m : Z) : 0 <= Zdigits2 m.
Proof. destruct m; simpl; lia. Qed.

Lemma Zdigits2_lt (m : Z) : 0 <= m -> m < 2 ^ Zdigits2 m.
Proof.
  destruct m as [|p|p]; simpl; intros H; try lia.
  rewrite digits2_pos_size. pose proof (Pos.size_gt p) as Hp.
  apply Pos2Z.pos_lt_pos in Hp. now rewrite Pos2Z.inj_pow in Hp.
Qed.

Lemma Zdigits2_ge (m : Z) : 0 < m -> 2 ^ Zdigits2 m <= 2 * m.
Proof.
  destruct m as [|p|p]; simpl; intros H; try lia.
  rewrite digits2_pos_size. pose proof (Pos.size_le p) as Hp.
  apply Pos2Z.pos_le_pos in Hp. now rewrite Pos2Z.inj_pow in Hp.
Qed.

(** [m < 2^k] bounds the number of digits by [k]. *)
Lemma Zdigits2_le (m k : Z) : 0 <= m -> 0 <= k -> m < 2 ^ k -> Zdigits2 m <= k.
Proof.
  intros Hm Hk Hlt. destruct (Z.eq_dec m 0) as [->|Hne]; [simpl; lia|].
  pose proof (Zdigits2_ge m ltac:(lia)) as Hge.
  pose proof (Zdigits2_nonneg m) as Hd.
  destruct (Z_le_gt_dec (Zdigits2 m) k) as [|Hgt]; [assumption|exfalso].
  assert (2 ^ (k + 1) <= 2 ^ Zdigits2 m) by (apply Z.pow_le_mono_r; lia).
  rewrite Z.pow_add_r in * by lia. lia.
Qed.

Lemma shr_1_m (mrs : shr_record) :
  0 <= shr_m mrs -> 0 <= shr_m (shr_1 mrs) /\ 2 * shr_m (shr_1 mrs) <= shr_m mrs.
Proof.
  destruct mrs as [m r s]. simpl. destruct m as [|[p|p|]|p]; simpl; lia.
Qed.

Lemma iter_shr_1_m (p : positive) (mrs : shr_record) :
  0 <= shr_m mrs ->
  0 <= shr_m (SpecFloat.iter_pos shr_1 p mrs) /\
  2 ^ Zpos p * shr_m (SpecFloat.iter_pos shr_1 p mrs) <= shr_m mrs.
Proof.
  revert mrs. induction p as [p IH|p IH|]; intros mrs Hm; simpl SpecFloat.iter_pos.
  - destruct (shr_1_m mrs Hm) as [H1 H2].
    destruct (IH _ H1) as [H3 H4]. destruct (IH _ H3) as [H5 H6].
    split; [assumption|].
    replace (Zpos p~1) with (Zpos p + Zpos p + 1) by lia.
    rewrite !Z.pow_add_r by lia. 
    pose proof (Z.pow_pos_nonneg 2 (Zpos p) ltac:(lia) ltac:(lia)). nia.
  - destruct (IH _ Hm) as [H3 H4]. destruct (IH _ H3) as [H5 H6].
    split; [assumption|].
    replace (Zpos p~0) with (Zpos p + Zpos p) by lia.
    rewrite !Z.pow_add_r by lia.
    pose proof (Z.pow_pos_nonneg 2 (Zpos p) ltac:(lia) ltac:(lia)). nia.
  - apply shr_1_m in Hm. change (2 ^ 1) with 2. lia.
Qed.

Lemma shr_m_of_loc (m : Z) (l : location) : shr_m (shr_record_of_loc m l) = m.
Proof. destruct l as [|[]]; reflexivity. Qed.

(** The exponent and the size of what [shr_fexp] returns. *)
Lemma shr_fexp_bounds (m e : Z) (l : location) (D E : Z) :
  0 <= m -> e <= E -> Zdigits2 m + e <= D -> D - 53 <= E -> -1074 <= E ->
  let '(mrs', e') := shr_fexp prec emax m e l in
  0 <= shr_m mrs' /\ e' <= E /\ Zdigits2 (shr_m mrs') + e' <= Z.max D E.
Proof.
  intros Hm He HD HDE HE. unfold shr_fexp, shr.
  assert (Hf : fexp prec emax (Zdigits2 m + e) <= E).
  { unfold fexp, SpecFloat.emin, prec, emax. lia. }
  destruct (fexp prec emax (Zdigits2 m + e) - e) as [|p|p] eqn:Hn;
    rewrite ?shr_m_of_loc; try (split; [lia|split; lia]).
  pose proof (iter_shr_1_m p (shr_record_of_loc m l)) as Hi.
  rewrite shr_m_of_loc in Hi. destruct (Hi Hm) as [H1 H2].
  set (m' := shr_m (SpecFloat.iter_pos shr_1 p (shr_record_of_loc m l))) in *.
  split; [assumption|]. split; [lia|].
  destruct (Z.eq_dec m' 0) as [->|Hne]; [simpl; lia|].
  assert (Zdigits2 m' <= Zdigits2 m - Zpos p); [|lia].
  pose proof (Zdigits2_lt m Hm) as Hlt.
  pose proof (Zdigits2_nonneg m).
  destruct (Z_le_gt_dec (Zpos p) (Zdigits2 m)) as [Hle|Hgt].
  - apply Zdigits2_le; [lia|lia|].
    replace (Zdigits2 m) with (Zpos p + (Zdigits2 m - Zpos p)) in Hlt by lia.
    rewrite Z.pow_add_r in Hlt by lia.
    pose proof (Z.pow_pos_nonneg 2 (Zpos p) ltac:(lia) ltac:(lia)).
    pose proof (Z.pow_pos_nonneg 2 (Zdigits2 m - Zpos p) ltac:(lia) ltac:(lia)). nia.
  - exfalso.
    assert (2 ^ Zdigits2 m <= 2 ^ Zpos p) by (apply Z.pow_le_mono_r; lia).
    assert (1 <= m') by lia.
    pose proof (Z.pow_pos_nonneg 2 (Zpos p) ltac:(lia) ltac:(lia)). nia.
Qed.

Lemma round_nearest_even_bounds (m : Z) (l : location) :
  0 <= m ->
  0 <= round_nearest_even m l /\ Zdigits2 (round_nearest_even m l) <= Zdigits2 m + 1.
Proof.
  intros Hm.
  assert (Hs : 0 <= m + 1 /\ Zdigits2 (m + 1) <= Zdigits2 m + 1).
  { split; [lia|]. pose proof (Zdigits2_nonneg m). pose proof (Zdigits2_lt m Hm).
    apply Zdigits2_le; [lia|lia|]. rewrite Z.pow_add_r by lia. lia. }
  assert (H0 : 0 <= m /\ Zdigits2 m <= Zdigits2 m + 1) by lia.
  unfold round_nearest_even. destruct l as [|[]]; try assumption.
  destruct (Z.even m); assumption.
Qed.

Lemma binary_round_aux_finite (sx : bool) (mx ex : Z) (lx : location) :
  0 <= mx -> ex <= 965 -> Zdigits2 mx + ex <= 1018 ->
  SF_finite (binary_round_aux prec emax sx mx ex lx) = true.
Proof.
  intros Hm He Hd. unfold binary_round_aux.
  pose proof (shr_fexp_bounds mx ex lx 1018 965 Hm He Hd ltac:(lia) ltac:(lia)) as H1.
  destruct (shr_fexp prec emax mx ex lx) as [mrs' e'].
  destruct H1 as (H1 & H2 & H3).
  destruct (round_nearest_even_bounds (shr_m mrs') (loc_of_shr_record mrs') H1) as [H4 H5].
  pose proof (shr_fexp_bounds _ e' loc_Exact 1019 966 H4 ltac:(lia) ltac:(lia)
                ltac:(lia) ltac:(lia)) as H6.
  destruct (shr_fexp prec emax _ e' loc_Exact) as [mrs'' e''].
  destruct H6 as (H6 & H7 & H8).
  destruct (shr_m mrs'') as [|p|p]; [reflexivity| |lia].
  replace (e'' <=? emax - prec) with true; [reflexivity|].
  symmetry. apply Z.leb_le. unfold emax, prec. lia.
Qed.

Lemma SFdiv_100_finite (s : bool) (m : positive) (e : Z) :
  bounded prec emax m e = true ->
  SF_finite (SF64div (S754_finite s m e) (S754_finite false 7036874417766400 (-46))) = true.
Proof.
  intros Hb. unfold bounded, canonical_mantissa in Hb.
  apply andb_true_iff in Hb as [Hc He]. apply Z.eqb_eq in Hc. apply Z.leb_le in He.
  unfold SF64div, SFdiv, SFdiv_core_binary.
  change (Zdigits2 (Zpos 7036874417766400)) with 53.
  change (Zdigits2 (Zpos m)) with (Zpos (digits2_pos m)).
  set (d1 := Zpos (digits2_pos m)) in *.
  assert (Hd1 : d1 <= 53).
  { unfold fexp, SpecFloat.emin, prec, emax in Hc. lia. }
  unfold prec, emax in He.
  set (e' := Z.min (fexp prec emax (d1 + e - (53 + -46))) (e - -46)).
  assert (He' : e' <= 964 /\ e' <= e + 46).
  { subst e'. unfold fexp, SpecFloat.emin, prec, emax. lia. }
  set (sh := e - -46 - e').
  assert (Hsh : 0 <= sh) by (subst sh; lia).
  set (m' := match sh with Z0 => Zpos m | Zpos _ => Z.shiftl (Zpos m) sh | Zneg _ => 0 end).
  assert (Hm' : m' = Zpos m * 2 ^ sh).
  { subst m'. destruct sh as [|p|p]; [simpl; lia| |lia].
    now rewrite Z.shiftl_mul_pow2 by lia. }
  pose proof (Z.div_eucl_eq m' 7036874417766400 ltac:(lia)) as Hq.
  pose proof (Z.mod_pos_bound m' 7036874417766400 ltac:(lia)) as Hr.
  unfold Z.modulo in Hr.
  destruct (Z.div_eucl m' 7036874417766400) as [q r].
  pose proof (Z.pow_pos_nonneg 2 sh ltac:(lia) Hsh) as Hpow.
  assert (Hq0 : 0 <= q) by nia.
  apply binary_round_aux_finite; [assumption|lia|].
  destruct (Z.eq_dec q 0) as [->|Hne]; [simpl; lia|].
  assert (Zdigits2 q <= d1 + sh - 52); [|subst sh; lia].
  pose proof (Zdigits2_lt (Zpos m) ltac:(lia)) as Hlt.
  change (Zdigits2 (Zpos m)) with d1 in Hlt.
  assert (Hd1p : 0 < d1) by (subst d1; lia).
  assert (Hqlt : q * 2 ^ 52 < 2 ^ d1 * 2 ^ sh).
  { change (2 ^ 52) with 4503599627370496. nia. }
  destruct (Z_le_gt_dec 52 (d1 + sh)) as [Hle|Hgt].
  - apply Zdigits2_le; [lia|lia|].
    rewrite <- Z.pow_add_r in Hqlt by lia.
    replace (d1 + sh) with ((d1 + sh - 52) + 52) in Hqlt by lia.
    rewrite Z.pow_add_r in Hqlt by lia.
    change (2 ^ 52) with 4503599627370496 in Hqlt.
    pose proof (Z.pow_pos_nonneg 2 (d1 + sh - 52) ltac:(lia) ltac:(lia)). nia.
  - exfalso. rewrite <- Z.pow_add_r in Hqlt by lia.
    assert (2 ^ (d1 + sh) <= 2 ^ 52) by (apply Z.pow_le_mono_r; lia).
    assert (1 <= q) by lia. nia.
Qed.


Lemma isFinite_div_100 (x : float) : isFinite x = true -> isFinite (x / 100) = true.
Proof.
  unfold isFinite. intros Hx. rewrite FloatAxioms.div_spec.
  pose proof (Prim2SF_valid x) as Hv.
  change (Prim2SF 100) with (S754_finite false 7036874417766400 (-46)).
  destruct (Prim2SF x) as [s|s| |s m e]; try discriminate.
  - reflexivity.
  - apply (SFdiv_100_finite s m e) in Hv. unfold SF_finite in Hv.
    destruct (SF64div _ _); (discriminate || reflexivity).
Qed.

End Div100.

Section FloatFacts.
Local Open Scope float_scope.

(** [Number(x.toFixed(2))] on familiar inputs: the decimal expansion of the
    double decides, a true tie goes away from zero, a small negative number
    keeps its sign, and from [1e21] on nothing is rounded. *)
Example round2_examples :
  round2 1.005 = 1 /\ round2 8.345 = 8.35 /\ round2 10.235 = 10.23 /\
  round2 0.125 = 0.13 /\ round2 (-0.125) = -0.13 /\
  round2 (-0.004) = -0 /\ round2 (-0) = 0 /\
  round2 1e21 = 1e21 /\ round2 nan = nan /\ round2 neg_infinity = neg_infinity.
Proof. vm_compute. repeat split. Qed.

Lemma is0_zero (x : float) : is0 x = true -> exists s, Prim2SF x = S754_zero s.
Proof.
  unfold is0. rewrite FloatAxioms.eqb_spec.
  destruct (Prim2SF x) as [s|s| |s m e] eqn:E; intros H; try (exists s; reflexivity).
  all: exfalso; revert H; try destruct s; vm_compute; discriminate.
Qed.

Lemma zero_is0 (x : float) (s : bool) : Prim2SF x = S754_zero s -> is0 x = true.
Proof. intros E. unfold is0. rewrite FloatAxioms.eqb_spec, E. reflexivity. Qed.

Lemma round2_is0 (x : float) : is0 x = true -> round2 x = 0.
Proof.
  intros [s E]%is0_zero. unfold round2, toFixed2. rewrite E. reflexivity.
Qed.

Lemma not_gt0_is0 (x : float) : is0 x = true -> (0 <? x) = false.
Proof.
  intros [s E]%is0_zero. rewrite FloatAxioms.ltb_spec, E. reflexivity.
Qed.

Lemma mul_finite_is0 (x y : float) :
  isFinite x = true -> is0 y = true -> is0 (x * y) = true.
Proof.
  unfold isFinite. intros Hx [s E]%is0_zero.
  destruct (Prim2SF x) as [sx|sx| |sx m e] eqn:Ex; try discriminate.
  - apply (zero_is0 _ (xorb sx s)). rewrite FloatAxioms.mul_spec, Ex, E. reflexivity.
  - apply (zero_is0 _ (xorb sx s)). rewrite FloatAxioms.mul_spec, Ex, E. reflexivity.
Qed.

Lemma mul_is0_finite (x y : float) :
  is0 x = true -> isFinite y = true -> is0 (x * y) = true.
Proof.
  unfold isFinite. intros [s E]%is0_zero Hy.
  destruct (Prim2SF y) as [sy|sy| |sy m e] eqn:Ey; try discriminate.
  - apply (zero_is0 _ (xorb s sy)). rewrite FloatAxioms.mul_spec, Ey, E. reflexivity.
  - apply (zero_is0 _ (xorb s sy)). rewrite FloatAxioms.mul_spec, Ey, E. reflexivity.
Qed.

Lemma add_0_is0 (z : float) : is0 z = true -> 0 + z = 0.
Proof.
  intros [s E]%is0_zero. apply Prim2SF_inj. rewrite FloatAxioms.add_spec, E.
  destruct s; reflexivity.
Qed.

Lemma isFinite_round2 (x : float) : isFinite (round2 x) = true -> isFinite x = true.
Proof.
  unfold isFinite, round2, toFixed2.
  destruct (Prim2SF x) as [s|s| |s m e] eqn:E; try reflexivity.
  - destruct s; vm_compute; discriminate.
  - vm_compute; discriminate.
Qed.

End FloatFacts.

Ltac float_discriminate H :=
  apply (f_equal (fun v => Prim2SF (ToNumber v))) in H; vm_compute in H; discriminate H.

Section PricingFacts.
Local Open Scope float_scope.

(** The scenarios of the specification's section 8. *)
Example scenario_no_discount :
  calculateRow (ItemObj.of_item (typed_row 100 2 0))
  = ItemObj.of_item (InvoiceItem.mk "k3x9q1z" "Panadol" 2 100 85.5 0 85.5 171).
Proof. vm_compute. reflexivity. Qed.

Example scenario_extra_discount :
  calculateRow (ItemObj.of_item (typed_row 100 1 (-10)))
  = ItemObj.of_item (InvoiceItem.mk "k3x9q1z" "Panadol" 1 100 85.5 (-10) 65.41 65.41).
Proof. vm_compute. reflexivity. Qed.

(** [calculateRow] keeps a well-typed item well typed, and touches only the
    three derived fields. *)
Lemma calculateRow_typed (it : InvoiceItem.t) :
  calculateRow (ItemObj.of_item it)
  = ItemObj.of_item
      (InvoiceItem.mk (InvoiceItem.id it) (InvoiceItem.name it)
         (InvoiceItem.qty it) (InvoiceItem.rate it)
         (round2 (spec_tradePrice (InvoiceItem.rate it)))
         (InvoiceItem.discount it)
         (round2 (spec_effectiveUnitPrice (InvoiceItem.rate it) (InvoiceItem.discount it)))
         (round2 (spec_lineTotal (InvoiceItem.rate it) (InvoiceItem.discount it)
                    (InvoiceItem.qty it)))).
Proof.
  destruct it as [i n q r t d u l].
  unfold calculateRow, spec_lineTotal, spec_effectiveUnitPrice, spec_discountBase,
    spec_tradePrice, ItemObj.of_item, gt0, strict_ne0; simpl.
  destruct (is0 d); simpl; reflexivity.
Qed.

(** C1, as stated, fails: at rate 100, quantity 1000, discount -10 the line
    total is 65407.50, computed from the unrounded unit price 65.4075, and
    not 65410.00 = round(65.41 * 1000, 2). *)
Lemma lineTotal_not_from_stored_unit_price :
  ~ lineTotal_from_stored_unit_price
      (calculateRow (ItemObj.of_item (typed_row 100 1000 (-10)))).
Proof. unfold lineTotal_from_stored_unit_price. intros H. float_discriminate H. Qed.

(** C1 (amended). For every line item, each derived field is the 2-decimal
    rounding of the corresponding unrounded quantity of section 4.1: the
    line total is round(u * quantity, 2) where u is the unrounded effective
    unit price, not the rounded one stored on the item. *)
Theorem calculateRow_rounds_each_stage (it : InvoiceItem.t) :
  let r := calculateRow (ItemObj.of_item it) in
  let rate := InvoiceItem.rate it in
  let discount := InvoiceItem.discount it in
  ItemObj.tp r = Num (round2 (spec_tradePrice rate)) /\
  ItemObj.totalPerPiece r = Num (round2 (spec_effectiveUnitPrice rate discount)) /\
  ItemObj.totalAmount r
  = Num (round2 (spec_effectiveUnitPrice rate discount * InvoiceItem.qty it)).
Proof.
  intros r rate discount. subst r. rewrite calculateRow_typed. simpl. auto.
Qed.

End PricingFacts.

Section PricingFacts2.
Local Open Scope float_scope.

(** C2, as stated, fails: at rate 100 and discount +40 the code stores
    101.75 (72.675 + 72.675 * 0.4 is the double just above 101.745), while
    the product 85.5 * 0.85 * (1 + 40/100) is the double just below it and
    rounds to 101.74; the trade price 85.5 is the same rounded or not. *)
Lemma unit_price_not_the_product :
  let r := calculateRow (ItemObj.of_item (typed_row 100 1 40)) in
  ~ unit_price_as_product (spec_tradePrice 100) r /\
  ~ unit_price_as_product (ToNumber (ItemObj.tp r)) r.
Proof.
  unfold unit_price_as_product. split; intros H; float_discriminate H.
Qed.

(** Nor is the stored value the exact product rounded half up: at rate 80
    and discount -75 the exact product is 14.535, which rounds to 14.54,
    and the code stores 14.53. *)
Remark unit_price_not_the_exact_product :
  toFixed2 (spec_effectiveUnitPrice 80 (-75)) = Lit_fixed false 1453 /\
  exact_hundredths 80 (-75) = 1454%Z.
Proof. split; vm_compute; reflexivity. Qed.

(** C2 (amended). For every line item with discountPercent !== 0, the
    stored effective unit price is round(b + b * (discountPercent / 100), 2)
    with b = t * (1 - 0.15) and t the unrounded trade price, each operation
    being the binary64 one, in this order. *)
Theorem effectiveUnitPrice_additive (it : InvoiceItem.t) :
  is0 (InvoiceItem.discount it) = false ->
  let b := spec_tradePrice (InvoiceItem.rate it) * (1 - 0.15) in
  ItemObj.totalPerPiece (calculateRow (ItemObj.of_item it))
  = Num (round2 (b + b * (InvoiceItem.discount it / 100))).
Proof.
  intros Hd b. rewrite calculateRow_typed. simpl.
  unfold spec_effectiveUnitPrice. rewrite Hd. reflexivity.
Qed.

Lemma effectiveUnitPrice_additive_witness :
  is0 40 = false /\
  ItemObj.totalPerPiece (calculateRow (ItemObj.of_item (typed_row 100 1 40)))
  = Num 101.75.
Proof.
  split; [reflexivity|].
  exact (effectiveUnitPrice_additive (typed_row 100 1 40) eq_refl).
Defined.

(** C3, as stated, fails: at rate 100, quantity 0 and no discount the trade
    price and the unit price are 85.50, only the line total is 0. *)
Lemma zero_quantity_not_all_zero :
  is0 (InvoiceItem.qty (typed_row 100 0 0)) = true /\
  ~ all_zero (calculateRow (ItemObj.of_item (typed_row 100 0 0))).
Proof.
  split; [reflexivity|]. intros [H _]. float_discriminate H.
Qed.

(** C3 (amended). For every line item with rate == 0 and finite
    discountPercent and quantity, the three derived fields are 0. For every
    line item with quantity == 0 whose derived effective unit price is
    finite, the line total is 0; its trade price and effective unit price
    do not depend on the quantity: they are the roundings of the unrounded
    trade price and unit price that rate and discountPercent give. *)
Theorem calculateRow_zero_rate_or_quantity (it : InvoiceItem.t) :
  let r := calculateRow (ItemObj.of_item it) in
  let rate := InvoiceItem.rate it in
  let discount := InvoiceItem.discount it in
  (is0 rate = true -> isFinite discount = true -> isFinite (InvoiceItem.qty it) = true ->
     all_zero r) /\
  (is0 (InvoiceItem.qty it) = true ->
     isFinite (ToNumber (ItemObj.totalPerPiece r)) = true ->
     ItemObj.totalAmount r = Num 0) /\
  ItemObj.tp r = Num (round2 (spec_tradePrice rate)) /\
  ItemObj.totalPerPiece r = Num (round2 (spec_effectiveUnitPrice rate discount)).
Proof.
  intros r rate discount. subst r rate discount. rewrite calculateRow_typed.
  destruct it as [i n qty rate t discount u l]. simpl.
  split; [|split; [|split; reflexivity]].
  - intros Hr Hd Hq.
    assert (Ht : spec_tradePrice rate = 0)
      by (unfold spec_tradePrice; now rewrite not_gt0_is0).
    assert (Hu : spec_effectiveUnitPrice rate discount = 0).
    { unfold spec_effectiveUnitPrice, spec_discountBase. rewrite Ht.
      destruct (is0 discount); [reflexivity|].
      change (0 * (1 - 0.15)) with 0.
      apply add_0_is0, mul_is0_finite; [reflexivity|]. by apply isFinite_div_100. }
    unfold all_zero, spec_lineTotal. simpl. rewrite Ht, Hu.
    split; [reflexivity|]. split; [reflexivity|].
    f_equal. apply round2_is0, mul_is0_finite; [reflexivity|assumption].
  - intros Hq Hu. f_equal.
    apply round2_is0, mul_finite_is0; [|assumption]. by apply isFinite_round2.
Qed.

Lemma calculateRow_zero_rate_or_quantity_witness :
  all_zero (calculateRow (ItemObj.of_item (typed_row 0 5 (-10)))) /\
  ItemObj.totalAmount (calculateRow (ItemObj.of_item (typed_row 100 0 (-10)))) = Num 0.
Proof.
  split.
  - exact (proj1 (calculateRow_zero_rate_or_quantity (typed_row 0 5 (-10)))
             eq_refl eq_refl eq_refl).
  - exact (proj1 (proj2 (calculateRow_zero_rate_or_quantity (typed_row 100 0 (-10))))
             eq_refl eq_refl).
Defined.

End PricingFacts2.

(** ** The aggregator *)

Section ArrayFacts.
Context {A : Type}.
Implicit Types (a : list (slot A)) (v : slot A).

Lemma length_spread a : length (spread a) = length a.
Proof. apply length_map. Qed.

Lemma length_array_set a i v : length a <= length (array_set a i v).
Proof.
  unfold array_set. destruct (decide (i < length a)).
  - rewrite length_insert. lia.
  - destruct (is_array_index i); [|lia].
    rewrite !length_app, length_replicate. simpl. lia.
Qed.

Lemma length_splice_insert a i v : length (splice_insert a i v) = S (length a).
Proof.
  unfold splice_insert. rewrite length_app, length_take. simpl. rewrite length_drop. lia.
Qed.

Lemma length_splice_delete a i :
  length (splice_delete a i) = if decide (i < length a) then pred (length a) else length a.
Proof.
  unfold splice_delete. rewrite length_app, length_take, length_drop.
  destruct (decide (i < length a)); lia.
Qed.

Lemma spread_no_hole a : Forall (fun s => s <> Hole) a -> spread a = a.
Proof.
  unfold spread. induction 1 as [|s a Hs _ IH]; simpl; [reflexivity|].
  rewrite IH. destruct s; congruence.
Qed.

End ArrayFacts.

Lemma spread_item_array (its : list InvoiceItem.t) : spread (item_array its) = item_array its.
Proof. apply spread_no_hole, Forall_map, Forall_true. discriminate. Qed.

Lemma spread_payment_array (ps : list PaymentRow.t) :
  spread (payment_array ps) = payment_array ps.
Proof. apply spread_no_hole, Forall_map, Forall_true. discriminate. Qed.

Lemma item_array_lookup (its : list InvoiceItem.t) (i : nat) :
  item_array its !! i = (fun it => Obj (ItemObj.of_item it)) <$> its !! i.
Proof. apply list_lookup_fmap. Qed.

(** *** [updateItem] *)

(** Past the end of any array, [updateItem] does not fail: at an array
    index it writes a new object, built from the empty object, at [index]. *)
Lemma updateItem_past_end (a : list (slot ItemObj.t)) (index : nat) (asg : item_assign) :
  length a <= index ->
  is_array_index index = true ->
  updateItem index asg a
  = spread a ++ replicate (index - length a) Hole
    ++ [Obj (if recalculates asg then calculateRow (assign_item asg ItemObj.empty)
             else assign_item asg ItemObj.empty)].
Proof.
  intros Hi Hx. unfold updateItem, spread_at, array_set.
  rewrite (lookup_ge_None_2 (spread a) index) by (rewrite length_spread; lia).
  rewrite length_spread, Hx.
  destruct (recalculates asg); destruct (decide (index < length a)); (lia || reflexivity).
Qed.

(** Past the end and past the array indices, the elements are the copy's. *)
Lemma updateItem_not_an_index (a : list (slot ItemObj.t)) (index : nat) (asg : item_assign) :
  length a <= index ->
  is_array_index index = false ->
  updateItem index asg a = spread a.
Proof.
  intros Hi Hx. unfold updateItem, array_set. rewrite length_spread, Hx.
  destruct (recalculates asg); destruct (decide (index < length a)); (lia || reflexivity).
Qed.

(** Typing a quantity into a fourth row of the one-row editor: the array
    grows to four elements, two of them empty slots, and the new row has
    neither id nor name nor rate, and [NaN] totals. *)
Example updateItem_fourth_row :
  updateItem 3 (Set_qty 2) (items (newEditor "2026-03-01" "k3x9q1z"))
  = [Obj (ItemObj.of_item (blank_item "k3x9q1z")); Hole; Hole;
     Obj (ItemObj.mk None None (Num 2) NUndef (Num 0) NUndef (Num nan) (Num nan))].
Proof. vm_compute. reflexivity. Qed.

(** C4, as stated, fails: an index out of range is not refused, and the
    collection is changed. *)
Lemma updateItem_out_of_range_changes_items :
  let its := items (newEditor "2026-03-01" "k3x9q1z") in
  length its <= 3 /\ updateItem 3 (Set_qty 2) its <> its.
Proof.
  split; [vm_compute; lia|]. rewrite updateItem_fourth_row. discriminate.
Qed.

(** C4 (amended). For every index at or past the end of a well-typed items
    array, [updateItem] returns normally. When the index is an array index
    (below [2^32 - 1]) it returns an array of length [index + 1]: the items
    that were there, unchanged and at their positions, then empty slots,
    then at [index] a new object that carries the assigned field alone,
    re-derived by [calculateRow] when the field is rate, qty or discount.
    From [2^32 - 1] on the assignment adds no element: the array returned
    has the length and the items of the one it was given. *)
Theorem updateItem_out_of_range (its : list InvoiceItem.t) (index : nat) (asg : item_assign) :
  length its <= index ->
  let r := updateItem index asg (item_array its) in
  (is_array_index index = true ->
   r = item_array its ++ replicate (index - length its) Hole
       ++ [Obj (if recalculates asg then calculateRow (assign_item asg ItemObj.empty)
                else assign_item asg ItemObj.empty)] /\
   length r = S index /\
   (forall j, j < length its -> r !! j = item_array its !! j)) /\
  (is_array_index index = false -> r = item_array its).
Proof.
  intros Hi r.
  assert (Hl : length (item_array its) = length its) by apply length_map.
  split.
  - intros Hx.
    assert (Hr : r = item_array its ++ replicate (index - length its) Hole
        ++ [Obj (if recalculates asg then calculateRow (assign_item asg ItemObj.empty)
                 else assign_item asg ItemObj.empty)]).
    { subst r. rewrite updateItem_past_end by (assumption || lia).
      rewrite spread_item_array, Hl. reflexivity. }
    split; [exact Hr|]. split.
    + rewrite Hr, !length_app, length_replicate, Hl. simpl. lia.
    + intros j Hj. rewrite Hr. apply lookup_app_l. lia.
  - intros Hx. subst r. rewrite updateItem_not_an_index by (assumption || lia).
    apply spread_item_array.
Qed.

Lemma updateItem_out_of_range_witness :
  (length [blank_item "k3x9q1z"] <= 1 /\ is_array_index 1 = true /\
   updateItem 1 (Set_name "Brufen") (item_array [blank_item "k3x9q1z"])
   = [Obj (ItemObj.of_item (blank_item "k3x9q1z"));
      Obj (ItemObj.mk None (Some "Brufen") NUndef NUndef NUndef NUndef NUndef NUndef)]) /\
  (length [blank_item "k3x9q1z"] <= N.to_nat 4294967295 /\
   is_array_index (N.to_nat 4294967295) = false /\
   updateItem (N.to_nat 4294967295) (Set_name "Brufen") (item_array [blank_item "k3x9q1z"])
   = [Obj (ItemObj.of_item (blank_item "k3x9q1z"))]).
Proof.
  assert (H1 : length [blank_item "k3x9q1z"] <= 1) by (simpl; lia).
  assert (H2 : length [blank_item "k3x9q1z"] <= N.to_nat 4294967295) by (simpl; lia).
  assert (H3 : is_array_index (N.to_nat 4294967295) = false).
  { unfold is_array_index. rewrite N2Nat.id. reflexivity. }
  split.
  - split; [exact H1|]. split; [reflexivity|].
    exact (proj1 (proj1 (updateItem_out_of_range [blank_item "k3x9q1z"] 1
                           (Set_name "Brufen") H1) eq_refl)).
  - split; [exact H2|]. split; [exact H3|].
    exact (proj2 (updateItem_out_of_range [blank_item "k3x9q1z"] (N.to_nat 4294967295)
                    (Set_name "Brufen") H2) H3).
Defined.

(** In range, a well-typed array stays well typed: the row is replaced by
    the assigned (and, for rate, qty and discount, re-derived) row. *)
Lemma updateItem_in_range (its : list InvoiceItem.t) (index : nat) (asg : item_assign)
    (it : InvoiceItem.t) :
  its !! index = Some it ->
  updateItem index asg (item_array its)
  = <[index := Obj (if recalculates asg
                    then calculateRow (assign_item asg (ItemObj.of_item it))
                    else assign_item asg (ItemObj.of_item it))]> (item_array its).
Proof.
  intros Hit. unfold updateItem, spread_at, array_set.
  rewrite spread_item_array, item_array_lookup, Hit. simpl.
  assert (index < length (item_array its)).
  { unfold item_array. rewrite length_map. eauto using lookup_lt_Some. }
  destruct (recalculates asg); destruct (decide _); (lia || reflexivity).
Qed.

(** *** [deleteRow] and the row count *)

Lemma length_updateItem (a : list (slot ItemObj.t)) (index : nat) (asg : item_assign) :
  length a <= length (updateItem index asg a).
Proof.
  unfold updateItem. rewrite <- (length_spread a) at 1.
  destruct (recalculates asg); apply length_array_set.
Qed.

Lemma length_addNewRow (newId : string) (a : list (slot ItemObj.t)) :
  length (addNewRow newId a) = S (length a).
Proof. unfold addNewRow. rewrite length_app, length_spread. simpl. lia. Qed.

Lemma length_duplicateRow (index : nat) (newId : string) (a : list (slot ItemObj.t)) :
  length (duplicateRow index newId a) = S (length a).
Proof. unfold duplicateRow. rewrite length_splice_insert, length_spread. reflexivity. Qed.

Lemma length_deleteRow (index : nat) (a : list (slot ItemObj.t)) :
  length (deleteRow index a)
  = if decide (1 < length a /\ index < length a) then pred (length a) else length a.
Proof.
  unfold deleteRow. destruct (decide (1 < length a)).
  - rewrite length_splice_delete, length_spread.
    destruct (decide (index < length a)); destruct (decide (_ /\ _)); lia.
  - destruct (decide (_ /\ _)); lia.
Qed.

(** No action takes the last row away. *)
Lemma step_keeps_a_row (st : Editor) (act : action) :
  1 <= length (items st) -> 1 <= length (items (step st act)).
Proof.
  destruct st as [n d its ps s]. destruct act; simpl; try done.
  - pose proof (length_updateItem its index a). lia.
  - rewrite length_addNewRow. lia.
  - rewrite length_deleteRow. destruct (decide _); lia.
  - rewrite length_duplicateRow. lia.
Qed.

Lemma run_keeps_a_row (acts : list action) (st : Editor) :
  1 <= length (items st) -> 1 <= length (items (run st acts)).
Proof.
  revert st. induction acts as [|act acts IH]; intros st Hst; [exact Hst|].
  apply IH, step_keeps_a_row, Hst.
Qed.

(** C6. [deleteRow] on an array of exactly one element returns it as it
    is, whatever the index; and from the editor of a new invoice, seeded
    with one blank row, every sequence of actions (item and payment
    operations at any index, with any value) leaves at least one row. *)
Theorem deleteRow_keeps_last_row :
  (forall (index : nat) (s : slot ItemObj.t), deleteRow index [s] = [s]) /\
  (forall (today newId : string) (acts : list action),
     items (newEditor today newId) = [Obj (ItemObj.of_item (blank_item newId))] /\
     1 <= length (items (run (newEditor today newId) acts))).
Proof.
  split; [reflexivity|]. intros today newId acts. split; [reflexivity|].
  apply run_keeps_a_row. simpl. lia.
Qed.

(** *** [duplicateRow] *)

Lemma of_item_with_id (newId : string) (it : InvoiceItem.t) :
  assign_item (Set_id newId) (ItemObj.of_item it) = ItemObj.of_item (with_id newId it).
Proof. reflexivity. Qed.

Lemma duplicateRow_typed (its : list InvoiceItem.t) (i : nat) (it : InvoiceItem.t)
    (newId : string) :
  its !! i = Some it ->
  duplicateRow i newId (item_array its)
  = item_array (take (S i) its ++ with_id newId it :: drop (S i) its).
Proof.
  intros Hit. unfold duplicateRow, spread_at, splice_insert.
  rewrite spread_item_array, item_array_lookup, Hit. simpl.
  rewrite Nat.add_1_r. unfold item_array.
  rewrite map_app. simpl. rewrite <- !fmap_take, <- !fmap_drop. reflexivity.
Qed.

(** C7, as stated, fails: the id of the copy is whatever [generateId]
    draws, and nothing compares it with the ids in the table. When the draw
    is the id of the source row, the copy has the id of its source. *)
Lemma duplicateRow_copy_id_not_distinct :
  let it := typed_row 100 2 0 in
  exists copy : InvoiceItem.t,
    duplicateRow 0 "k3x9q1z" (item_array [it]) = item_array [it; copy] /\
    InvoiceItem.id copy = InvoiceItem.id it.
Proof.
  exists (typed_row 100 2 0). split; reflexivity.
Qed.

(** C7 (amended). For every in-range index [i] of a well-typed items array
    and every identifier [generateId] draws, [duplicateRow] yields the
    well-typed array with one more row: at [i + 1] a row equal to the source
    in name, qty, rate, discount, tp, totalPerPiece and totalAmount and with
    the drawn id, which differs from the source's exactly when the draw
    does; the source row is still at [i], the rows before keep their
    positions and the rows after move up by one. *)
Theorem duplicateRow_inserts_copy (its : list InvoiceItem.t) (i : nat)
    (it : InvoiceItem.t) (newId : string) :
  its !! i = Some it ->
  exists (its' : list InvoiceItem.t) (copy : InvoiceItem.t),
    duplicateRow i newId (item_array its) = item_array its' /\
    length its' = S (length its) /\
    its' !! (S i) = Some copy /\
    InvoiceItem.id copy = newId /\
    (InvoiceItem.id copy <> InvoiceItem.id it <-> newId <> InvoiceItem.id it) /\
    InvoiceItem.name copy = InvoiceItem.name it /\
    InvoiceItem.qty copy = InvoiceItem.qty it /\
    InvoiceItem.rate copy = InvoiceItem.rate it /\
    InvoiceItem.discount copy = InvoiceItem.discount it /\
    InvoiceItem.tp copy = InvoiceItem.tp it /\
    InvoiceItem.totalPerPiece copy = InvoiceItem.totalPerPiece it /\
    InvoiceItem.totalAmount copy = InvoiceItem.totalAmount it /\
    its' !! i = Some it /\
    (forall j, j <= i -> its' !! j = its !! j) /\
    (forall j, i < j -> its' !! (S j) = its !! j).
Proof.
  intros Hit.
  assert (Hi : i < length its) by eauto using lookup_lt_Some.
  assert (Hlt : length (take (S i) its) = S i) by (rewrite length_take; lia).
  assert (Hbefore : forall j, j <= i ->
            (take (S i) its ++ with_id newId it :: drop (S i) its) !! j = its !! j).
  { intros j Hj. rewrite lookup_app_l by lia. apply lookup_take_lt. lia. }
  exists (take (S i) its ++ with_id newId it :: drop (S i) its), (with_id newId it).
  split; [by apply duplicateRow_typed|].
  split.
  { rewrite length_app, Hlt. simpl. rewrite length_drop. lia. }
  split.
  { rewrite lookup_app_r by lia. rewrite Hlt, Nat.sub_diag. reflexivity. }
  do 9 (split; [done|]).
  split; [by rewrite Hbefore|].
  split; [exact Hbefore|].
  intros j Hj. rewrite lookup_app_r by lia. rewrite Hlt.
  replace (S j - S i) with (S (j - S i)) by lia. simpl.
  rewrite lookup_drop. f_equal. lia.
Qed.

Lemma duplicateRow_inserts_copy_witness :
  exists (its' : list InvoiceItem.t) (copy : InvoiceItem.t),
    duplicateRow 0 "p7w2m4c" (item_array [typed_row 100 2 0; blank_item "a5d8e0f"])
    = item_array its' /\
    length its' = 3 /\
    its' !! 1 = Some copy /\
    InvoiceItem.id copy = "p7w2m4c" /\
    InvoiceItem.id copy <> "k3x9q1z".
Proof.
  destruct (duplicateRow_inserts_copy [typed_row 100 2 0; blank_item "a5d8e0f"] 0
              (typed_row 100 2 0) "p7w2m4c" eq_refl)
    as (its' & copy & H1 & H2 & H3 & H4 & H5 & _).
  exists its', copy. repeat split; try assumption.
  apply H5. discriminate.
Defined.

(** *** Totals *)

Lemma reduce_sum_typed {A B : Type} (g : A -> B) (f : B -> float) (l : list A) (sum : float) :
  reduce_sum f (map (fun x => Obj (g x)) l) sum
  = Some (fold_left PrimFloat.add (map (fun x => f (g x)) l) sum).
Proof.
  revert sum. induction l as [|x l IH]; intros sum; simpl; [reflexivity|apply IH].
Qed.

(** The specification's payment scenario: payments of 50 and 30 against a
    grand total of 171.00 leave 91.00. *)
Example scenario_two_payments : remainingBalance (paid_editor [50; 30]%float) = Some 91%float.
Proof. vm_compute. reflexivity. Qed.

(** C8. For every well-typed editor state, the totals are defined and
    [grandTotal] is the sum of the items' [totalAmount], [totalPaid] the sum
    of the payments' [amount] (each sum formed from 0, left to right),
    and [remainingBalance] their difference as it is, whatever its sign: a
    payment of 200 against 171.00 leaves -29. *)
Theorem totals_are_sums :
  (forall (n d : string) (its : list InvoiceItem.t) (ps : list PaymentRow.t)
          (s : InvoiceStatus),
     let st := typed_editor n d its ps s in
     grandTotal (items st) = Some (fsum (map InvoiceItem.totalAmount its)) /\
     totalPaid (payments st) = Some (fsum (map PaymentRow.amount ps)) /\
     remainingBalance st
     = Some (fsum (map InvoiceItem.totalAmount its) - fsum (map PaymentRow.amount ps))%float) /\
  remainingBalance (paid_editor [200%float]) = Some (-29)%float.
Proof.
  split; [|vm_compute; reflexivity].
  intros n d its ps s st.
  assert (Hg : grandTotal (items st) = Some (fsum (map InvoiceItem.totalAmount its))).
  { apply (reduce_sum_typed ItemObj.of_item). }
  assert (Hp : totalPaid (payments st) = Some (fsum (map PaymentRow.amount ps))).
  { apply (reduce_sum_typed PaymentObj.of_payment). }
  split; [exact Hg|]. split; [exact Hp|].
  unfold remainingBalance. rewrite Hg, Hp. reflexivity.
Qed.

(** ** Persistence *)

Section JSONFacts.

Lemma JSON_num_idemp (v : jsnum) : JSON.num (JSON.num v) = JSON.num v.
Proof.
  destruct v as [| |x]; try reflexivity. unfold JSON.num at 2 3.
  destruct (isFinite x) eqn:Hf; [|reflexivity].
  destruct (is0 x) eqn:Hz; [reflexivity|]. unfold JSON.num. rewrite Hf, Hz. reflexivity.
Qed.

Lemma JSON_element_idemp {A : Type} (f : A -> A) :
  (forall o, f (f o) = f o) ->
  forall s : slot A, JSON.element f (JSON.element f s) = JSON.element f s.
Proof. intros Hf [| | |o]; simpl; congruence. Qed.

Lemma JSON_item_idemp (o : ItemObj.t) : JSON.item (JSON.item o) = JSON.item o.
Proof. destruct o. unfold JSON.item. simpl. rewrite !JSON_num_idemp. reflexivity. Qed.

Lemma JSON_payment_idemp (o : PaymentObj.t) : JSON.payment (JSON.payment o) = JSON.payment o.
Proof. destruct o. unfold JSON.payment. simpl. rewrite !JSON_num_idemp. reflexivity. Qed.

(** Writing what was read writes the same text again. *)
Lemma JSON_invoice_idemp (v : InvoiceObj.t) : JSON.invoice (JSON.invoice v) = JSON.invoice v.
Proof.
  destruct v as [i n d its ps s t r c]. unfold JSON.invoice. simpl.
  rewrite !JSON_num_idemp, !map_map. f_equal; apply map_ext; intros e.
  - apply JSON_element_idemp, JSON_item_idemp.
  - apply JSON_element_idemp, JSON_payment_idemp.
Qed.

Lemma JSON_invoice_id (v : InvoiceObj.t) : InvoiceObj.id (JSON.invoice v) = InvoiceObj.id v.
Proof. reflexivity. Qed.

Lemma JSON_num_exact (x : float) : json_exact x = true -> JSON.num (Num x) = Num x.
Proof.
  unfold json_exact, JSON.num, isFinite. intros Hx.
  destruct (Prim2SF x) as [s|s| |s m e] eqn:E; try discriminate.
  - destruct s; [discriminate|].
    replace x with 0%float by (apply Prim2SF_inj; rewrite E; reflexivity). reflexivity.
  - replace (is0 x) with false; [reflexivity|].
    unfold is0. rewrite FloatAxioms.eqb_spec, E. destruct s; reflexivity.
Qed.

Lemma JSON_item_exact (it : InvoiceItem.t) :
  item_exact it -> JSON.item (ItemObj.of_item it) = ItemObj.of_item it.
Proof.
  intros (H1 & H2 & H3 & H4 & H5 & H6). unfold JSON.item, ItemObj.of_item. simpl.
  rewrite !JSON_num_exact by assumption. reflexivity.
Qed.

Lemma JSON_invoice_exact (v : Invoice.t) :
  invoice_exact v -> JSON.invoice (InvoiceObj.of_invoice v) = InvoiceObj.of_invoice v.
Proof.
  intros (Hi & Hp & H1 & H2 & H3). unfold JSON.invoice, InvoiceObj.of_invoice. simpl.
  rewrite !JSON_num_exact by assumption. f_equal.
  - unfold item_array. rewrite map_map. apply Forall_fmap_ext_1.
    eapply Forall_impl; [exact Hi|]. intros it Hit. simpl. by rewrite JSON_item_exact.
  - unfold payment_array. rewrite map_map. apply Forall_fmap_ext_1.
    eapply Forall_impl; [exact Hp|]. intros p Hx. simpl.
    unfold JSON.payment. simpl. by rewrite JSON_num_exact.
Qed.

End JSONFacts.

Section StorageFacts.
Implicit Types (username : string) (invoice : InvoiceObj.t) (ls : localStorage).

Lemma getInvoices_fixed username ls :
  map JSON.invoice (getInvoices username ls) = getInvoices username ls.
Proof.
  unfold getInvoices. destruct (ls !! _); [|reflexivity].
  rewrite map_map. apply map_ext, JSON_invoice_idemp.
Qed.

(** What is read after [saveInvoice], in terms of what was read before. *)
Lemma getInvoices_saveInvoice username invoice ls :
  getInvoices username (saveInvoice username invoice ls)
  = match list_find (fun inv => InvoiceObj.id inv = InvoiceObj.id invoice)
            (getInvoices username ls) with
    | Some (existingIndex, _) =>
        <[existingIndex := JSON.invoice invoice]> (getInvoices username ls)
    | None => getInvoices username ls ++ [JSON.invoice invoice]
    end.
Proof.
  unfold saveInvoice. unfold getInvoices at 1. rewrite lookup_insert_eq.
  destruct (list_find _ _) as [[i x]|].
  - change (map JSON.invoice ?l) with (JSON.invoice <$> l).
    rewrite list_fmap_insert. f_equal. apply getInvoices_fixed.
  - rewrite map_app. simpl. by rewrite getInvoices_fixed.
Qed.

Lemma getInvoices_saveInvoice_other username other invoice ls :
  other <> username ->
  getInvoices other (saveInvoice username invoice ls) = getInvoices other ls.
Proof.
  intros Hne. unfold saveInvoice. unfold getInvoices at 1 3.
  rewrite lookup_insert_ne; [reflexivity|].
  intros Heq. apply Hne. symmetry. by eapply (inj (String.append DATA_PREFIX)).
Qed.

(** [load] after [saveInvoice] finds what [JSON] kept of the invoice. *)
Lemma load_saveInvoice username invoice ls :
  load username (InvoiceObj.id invoice) (saveInvoice username invoice ls)
  = Some (JSON.invoice invoice).
Proof.
  unfold load. rewrite getInvoices_saveInvoice.
  destruct (list_find _ (getInvoices username ls)) as [[i x]|] eqn:Hfind.
  - apply list_find_Some in Hfind as (Hi & Hx & Hleast).
    assert (i < length (getInvoices username ls)) by eauto using lookup_lt_Some.
    rewrite (proj2 (list_find_Some _ _ i (JSON.invoice invoice))); [reflexivity|].
    split; [by apply list_lookup_insert_eq|]. split; [reflexivity|].
    intros j y Hj Hlt. rewrite list_lookup_insert_ne in Hj by lia. eauto.
  - rewrite list_find_app_r by assumption. simpl.
    destruct (decide _) as [|Hne]; [reflexivity|]. by destruct Hne.
Qed.

End StorageFacts.

Section SaveLoad.
Implicit Types (username : string) (ls : localStorage).

(** The overflowing invoice is one the editor itself produces. *)
Example overflowing_invoice_is_saved :
  invoiceData (run (newEditor "2026-03-01" "k3x9q1z") overflowing_actions)
    None "f4h6j8l" first_save
  = Some (InvoiceObj.of_invoice overflowing_invoice).
Proof. vm_compute. reflexivity. Qed.

(** C9, as stated, fails: the invoice whose line total overflowed is stored
    with [null] for its infinite totals, and that is what is loaded. *)
Lemma save_then_load_loses_infinity :
  load "ali" (Invoice.id overflowing_invoice)
    (saveInvoice "ali" (InvoiceObj.of_invoice overflowing_invoice) ∅)
  <> Some (InvoiceObj.of_invoice overflowing_invoice).
Proof.
  rewrite (load_saveInvoice "ali" (InvoiceObj.of_invoice overflowing_invoice)).
  intros H. apply (f_equal (fmap InvoiceObj.totalAmount)) in H.
  vm_compute in H. discriminate H.
Qed.

(** C9 (amended). For every username, store and invoice, saving the invoice
    and then loading by its id returns the invoice's [JSON] image: equal to
    the invoice saved in every string, in the status, in the order and
    number of items and payments, and in every number that is finite and
    not [-0]; [NaN] and the infinities come back as [null], [-0] as [0].
    So an invoice all of whose numbers are finite and not [-0] comes back
    equal in all fields, the derived ones included. *)
Theorem save_then_load username (v : Invoice.t) ls :
  load username (Invoice.id v) (saveInvoice username (InvoiceObj.of_invoice v) ls)
  = Some (JSON.invoice (InvoiceObj.of_invoice v)) /\
  (invoice_exact v ->
   load username (Invoice.id v) (saveInvoice username (InvoiceObj.of_invoice v) ls)
   = Some (InvoiceObj.of_invoice v)).
Proof.
  pose proof (load_saveInvoice username (InvoiceObj.of_invoice v) ls) as H.
  split; [exact H|]. intros Hv. rewrite <- (JSON_invoice_exact v Hv) at 2. exact H.
Qed.

Lemma march_invoice_exact : invoice_exact march_invoice.
Proof. unfold invoice_exact, item_exact. simpl. repeat constructor. Defined.

Lemma save_then_load_witness :
  invoice_exact march_invoice /\
  load "ali" "f4h6j8l" (saveInvoice "ali" (InvoiceObj.of_invoice march_invoice) ∅)
  = Some (InvoiceObj.of_invoice march_invoice).
Proof.
  split; [exact march_invoice_exact|].
  exact (proj2 (save_then_load "ali" march_invoice ∅) march_invoice_exact).
Defined.

(** C10. For every username, invoice and store, with [old] the list read
    before [saveInvoice] and [new] the list read after it: every invoice of
    [old] whose id differs from the saved one's is in [new] at the same
    position; if [old] has an invoice with that id, the first such, at index
    [i], is the one replaced, and nothing else changes; if it has none, [new]
    is [old] with the saved invoice appended. The lists of other users are
    not touched. *)
Theorem saveInvoice_frame username (invoice : InvoiceObj.t) ls :
  let old := getInvoices username ls in
  let new := getInvoices username (saveInvoice username invoice ls) in
  (forall j inv, old !! j = Some inv -> InvoiceObj.id inv <> InvoiceObj.id invoice ->
     new !! j = Some inv) /\
  (forall i inv, old !! i = Some inv -> InvoiceObj.id inv = InvoiceObj.id invoice ->
     (forall j inv', old !! j = Some inv' -> j < i ->
        InvoiceObj.id inv' <> InvoiceObj.id invoice) ->
     new = <[i := JSON.invoice invoice]> old) /\
  (Forall (fun inv => InvoiceObj.id inv <> InvoiceObj.id invoice) old ->
     new = old ++ [JSON.invoice invoice]) /\
  (forall other, other <> username ->
     getInvoices other (saveInvoice username invoice ls) = getInvoices other ls).
Proof.
  intros old new. subst new. rewrite getInvoices_saveInvoice. fold old.
  split; [|split; [|split]].
  - intros j inv Hj Hne.
    destruct (list_find _ old) as [[i x]|] eqn:Hfind.
    + apply list_find_Some in Hfind as (Hi & Hx & _).
      rewrite list_lookup_insert_ne; [exact Hj|]. intros ->. congruence.
    + by apply lookup_app_l_Some.
  - intros i inv Hi Hid Hleast.
    rewrite (proj2 (list_find_Some _ old i inv)); [reflexivity|]. auto.
  - intros Hnone. by rewrite (proj2 (list_find_None _ old)).
  - intros other Hne. by apply getInvoices_saveInvoice_other.
Qed.

Lemma saveInvoice_frame_witness :
  let ls := saveInvoice "ali" (InvoiceObj.of_invoice overflowing_invoice) ∅ in
  getInvoices "ali" (saveInvoice "ali" (InvoiceObj.of_invoice march_invoice) ls)
  = [InvoiceObj.of_invoice march_invoice].
Proof.
  intros ls.
  destruct (saveInvoice_frame "ali" (InvoiceObj.of_invoice march_invoice) ls)
    as (_ & H & _).
  assert (Hold : getInvoices "ali" ls
                 = [JSON.invoice (InvoiceObj.of_invoice overflowing_invoice)]).
  { subst ls. by rewrite getInvoices_saveInvoice. }
  rewrite (H 0 (JSON.invoice (InvoiceObj.of_invoice overflowing_invoice))).
  - rewrite Hold. vm_compute. reflexivity.
  - rewrite Hold. reflexivity.
  - reflexivity.
  - intros j inv' _ Hj. lia.
Defined.

(** *** [handleSave] and [createdAt] *)

Lemma handleSave_saves (st : Editor) username (existingInvoiceId : option string)
    (newId : string) (now : float) ls (data : InvoiceObj.t) :
  invoiceName st <> EmptyString ->
  invoiceData st existingInvoiceId newId now = Some data ->
  handleSave st username existingInvoiceId newId now ls = saveInvoice username data ls.
Proof.
  intros Hn Hd. unfold handleSave. rewrite Hd. by destruct (decide _).
Qed.

(** Whatever [createdAt] the store held for the invoice, after [handleSave]
    on the editor reopened on it the store holds the time of this save. *)
Lemma handleSave_stamps_now (st : Editor) username (invoiceId newId : string)
    (now : float) ls (data : InvoiceObj.t) :
  invoiceName st <> EmptyString ->
  invoiceId <> EmptyString ->
  invoiceData st (Some invoiceId) newId now = Some data ->
  InvoiceObj.createdAt <$> load username invoiceId
                             (handleSave st username (Some invoiceId) newId now ls)
  = Some (JSON.num (Num now)).
Proof.
  intros Hn Hi Hd. rewrite (handleSave_saves _ _ _ _ _ _ data) by assumption.
  assert (InvoiceObj.id data = invoiceId /\ InvoiceObj.createdAt data = Num now) as [<- Hc].
  { unfold invoiceData in Hd.
    destruct (grandTotal _); [|discriminate]. destruct (remainingBalance _); [|discriminate].
    simpl in Hd. injection Hd as <-. simpl. by destruct (decide _). }
  rewrite load_saveInvoice. simpl. by rewrite Hc.
Qed.

(** The sibling path, [Dashboard.toggleStatus], saves the invoice it was
    given with the [createdAt] it had. *)
Lemma toggleStatus_keeps_createdAt username (invoice : InvoiceObj.t) ls :
  InvoiceObj.createdAt <$> load username (InvoiceObj.id invoice)
                             (toggleStatus username invoice ls)
  = Some (JSON.num (InvoiceObj.createdAt invoice)).
Proof.
  destruct invoice as [i n d its ps s t r c]. unfold toggleStatus.
  pose proof (load_saveInvoice username
                (InvoiceObj.mk i n d its ps
                   (match s with PAID => PENDING | PENDING => PAID end) t r c) ls) as H.
  cbn [InvoiceObj.id] in H |- *. rewrite H. reflexivity.
Qed.

(** C5 on the code: the invoice "March" is saved a first time, which mints
    its id and stamps [createdAt]; a day later the editor is mounted on it
    again and it is saved as it is. The stored [createdAt] is then the time
    of the second save, not the time of the first. *)
Theorem createdAt_is_restamped :
  let ls1 := handleSave march_editor "ali" None "f4h6j8l" first_save ∅ in
  let reopened := mountEditor (Some "f4h6j8l") "2026-03-02" "g2n5b8v" "ali" ls1 in
  let ls2 := handleSave reopened "ali" (Some "f4h6j8l") "h3k9d1s" second_save ls1 in
  load "ali" "f4h6j8l" ls1 = Some (InvoiceObj.of_invoice march_invoice) /\
  reopened = march_editor /\
  InvoiceObj.createdAt <$> load "ali" "f4h6j8l" ls1 = Some (Num first_save) /\
  InvoiceObj.createdAt <$> load "ali" "f4h6j8l" ls2 = Some (Num second_save).
Proof.
  intros ls1 reopened ls2.
  assert (L1 : load "ali" "f4h6j8l" ls1 = Some (InvoiceObj.of_invoice march_invoice)).
  { vm_compute. reflexivity. }
  assert (R : reopened = march_editor).
  { subst reopened. unfold mountEditor. rewrite L1. reflexivity. }
  split; [exact L1|]. split; [exact R|]. split; [by rewrite L1|].
  subst ls2. rewrite R.
  apply (handleSave_stamps_now march_editor "ali" "f4h6j8l" "h3k9d1s" second_save ls1
           (InvoiceObj.mk "f4h6j8l" "March" "2026-03-01" (items march_editor)
              (payments march_editor) PENDING (Num 171) (Num 91) (Num second_save)));
    [discriminate|discriminate|vm_compute; reflexivity].
Qed.

End SaveLoad.

(** * Further properties of the code *)

(** ** [storageService] *)

Section StoreFacts.
Implicit Types (username : string) (invoice : InvoiceObj.t) (ls : localStorage).

Lemma getInvoices_Forall_fixed username ls :
  Forall (fun v => JSON.invoice v = v) (getInvoices username ls).
Proof.
  unfold getInvoices. destruct (ls !! _); [|constructor].
  apply Forall_fmap, Forall_true. intros v. apply JSON_invoice_idemp.
Qed.

Lemma map_fixed {A : Type} (f : A -> A) (l : list A) :
  Forall (fun x => f x = x) l -> map f l = l.
Proof. induction 1; simpl; congruence. Qed.

Lemma map_filter_fixed {A : Type} (f : A -> A) (P : A -> Prop) `{!forall x, Decision (P x)}
    (l : list A) :
  Forall (fun x => f x = x) l -> map f (filter P l) = filter P l.
Proof.
  induction 1 as [|x l Hx _ IH]; [reflexivity|].
  rewrite filter_cons. destruct (decide (P x)); simpl; congruence.
Qed.

Lemma getInvoices_lookup_fixed username ls (j : nat) (v : InvoiceObj.t) :
  getInvoices username ls !! j = Some v -> JSON.invoice v = v.
Proof.
  intros Hj. pose proof (getInvoices_Forall_fixed username ls) as H.
  rewrite list.Forall_lookup in H. exact (H j v Hj).
Qed.

(** What is read after [deleteInvoice], in terms of what was read before. *)
Lemma getInvoices_deleteInvoice username invoiceId ls :
  getInvoices username (deleteInvoice username invoiceId ls)
  = filter (fun inv => InvoiceObj.id inv <> invoiceId) (getInvoices username ls).
Proof.
  unfold deleteInvoice. unfold getInvoices at 1. rewrite lookup_insert_eq.
  apply map_filter_fixed, getInvoices_Forall_fixed.
Qed.

Lemma getInvoices_deleteInvoice_other username other invoiceId ls :
  other <> username ->
  getInvoices other (deleteInvoice username invoiceId ls) = getInvoices other ls.
Proof.
  intros Hne. unfold deleteInvoice. unfold getInvoices at 1 3.
  rewrite lookup_insert_ne; [reflexivity|].
  intros Heq. apply Hne. symmetry. by eapply (inj (String.append DATA_PREFIX)).
Qed.

(** Looking an id up in a list from which another id was filtered out. *)
Lemma find_id_filter (l : list InvoiceObj.t) (i j : string) :
  j <> i ->
  snd <$> list_find (fun inv => InvoiceObj.id inv = j)
            (filter (fun inv => InvoiceObj.id inv <> i) l)
  = snd <$> list_find (fun inv => InvoiceObj.id inv = j) l.
Proof.
  intros Hne. induction l as [|x l IH]; [reflexivity|].
  rewrite filter_cons. destruct (decide (InvoiceObj.id x <> i)) as [Hx|Hx].
  - simpl. destruct (decide (InvoiceObj.id x = j)); [reflexivity|].
    destruct (list_find _ (filter _ l)) as [[? ?]|], (list_find _ l) as [[? ?]|];
      simpl in *; congruence.
  - simpl. destruct (decide (InvoiceObj.id x = j)) as [Hj|Hj].
    + exfalso. apply Hx. congruence.
    + rewrite IH. by destruct (list_find _ l) as [[? ?]|].
Qed.

(** X1. After [deleteInvoice(username, invoiceId)] no invoice with that id
    is found for the user, every other id is found as before, the
    remaining invoices keep their order, and the lists of the other users
    are as they were. *)
Theorem deleteInvoice_removes username invoiceId ls :
  load username invoiceId (deleteInvoice username invoiceId ls) = None /\
  (forall other, other <> invoiceId ->
     load username other (deleteInvoice username invoiceId ls) = load username other ls) /\
  getInvoices username (deleteInvoice username invoiceId ls)
    `sublist_of` getInvoices username ls /\
  (forall user, user <> username ->
     getInvoices user (deleteInvoice username invoiceId ls) = getInvoices user ls).
Proof.
  unfold load. rewrite getInvoices_deleteInvoice. split; [|split; [|split]].
  - rewrite (proj2 (list_find_None _ _)); [reflexivity|].
    apply list.Forall_forall. intros inv Hin%list_elem_of_filter. tauto.
  - intros other Hne. by apply find_id_filter.
  - apply sublist_filter.
  - intros user Hne. by apply getInvoices_deleteInvoice_other.
Qed.

Lemma filter_id_absent (l : list InvoiceObj.t) (i : string) :
  Forall (fun inv => InvoiceObj.id inv <> i) l ->
  filter (fun inv => InvoiceObj.id inv <> i) l = l.
Proof.
  induction 1 as [|x l Hx _ IH]; [reflexivity|].
  rewrite filter_cons_True by assumption. by rewrite IH.
Qed.

(** X2. [deleteInvoice] with an id that no stored invoice of the user has
    leaves the list that is read as it was. *)
Theorem deleteInvoice_absent username invoiceId ls :
  Forall (fun inv => InvoiceObj.id inv <> invoiceId) (getInvoices username ls) ->
  getInvoices username (deleteInvoice username invoiceId ls) = getInvoices username ls.
Proof. intros H. rewrite getInvoices_deleteInvoice. by apply filter_id_absent. Qed.

Lemma deleteInvoice_absent_witness :
  let ls := saveInvoice "ali" (InvoiceObj.of_invoice march_invoice) ∅ in
  getInvoices "ali" (deleteInvoice "ali" "zzzzzzz" ls)
  = [InvoiceObj.of_invoice march_invoice].
Proof.
  intros ls.
  assert (Hold : getInvoices "ali" ls = [InvoiceObj.of_invoice march_invoice])
    by (vm_compute; reflexivity).
  rewrite (deleteInvoice_absent "ali" "zzzzzzz" ls); [exact Hold|].
  rewrite Hold. repeat constructor. discriminate.
Defined.

(** The index at which [saveInvoice] wrote is the index it finds again. *)
Lemma find_after_saveInvoice username invoice ls :
  let old := getInvoices username ls in
  exists i,
    list_find (fun inv => InvoiceObj.id inv = InvoiceObj.id invoice)
      (getInvoices username (saveInvoice username invoice ls))
    = Some (i, JSON.invoice invoice) /\
    match list_find (fun inv => InvoiceObj.id inv = InvoiceObj.id invoice) old with
    | Some (j, _) => i = j /\ j < length old
    | None => i = length old
    end.
Proof.
  intros old. rewrite getInvoices_saveInvoice. fold old.
  destruct (list_find _ old) as [[i x]|] eqn:Hfind.
  - exists i. apply list_find_Some in Hfind as (Hi & Hx & Hleast).
    assert (i < length old) by eauto using lookup_lt_Some.
    split; [|by split]. apply list_find_Some.
    split; [by apply list_lookup_insert_eq|]. split; [reflexivity|].
    intros j y Hj Hlt. rewrite list_lookup_insert_ne in Hj by lia. eauto.
  - exists (length old). split; [|reflexivity].
    rewrite list_find_app_r by assumption. simpl.
    destruct (decide _) as [|Hne]; [|by destruct Hne].
    simpl. repeat f_equal; lia.
Qed.

(** X3. [saveInvoice] is idempotent: saving the same invoice a second time
    leaves the store exactly as the first save left it. *)
Theorem saveInvoice_idempotent username invoice ls :
  saveInvoice username invoice (saveInvoice username invoice ls)
  = saveInvoice username invoice ls.
Proof.
  destruct (find_after_saveInvoice username invoice ls) as (i & Hfind & Hi).
  unfold saveInvoice at 1. rewrite Hfind.
  rewrite getInvoices_saveInvoice in *. unfold saveInvoice.
  set (old := getInvoices username ls) in *.
  rewrite insert_insert_eq. f_equal.
  destruct (list_find _ old) as [[j x]|].
  - destruct Hi as [-> Hj]. by rewrite list_insert_insert_eq.
  - subst i. rewrite insert_app_r_alt by lia. by rewrite Nat.sub_diag.
Qed.

(** X4. Saving an invoice under an id that no stored invoice of the user
    has, and then deleting that id, gives back the list that was read
    before. *)
Theorem saveInvoice_deleteInvoice username invoice ls :
  Forall (fun inv => InvoiceObj.id inv <> InvoiceObj.id invoice) (getInvoices username ls) ->
  getInvoices username
    (deleteInvoice username (InvoiceObj.id invoice) (saveInvoice username invoice ls))
  = getInvoices username ls.
Proof.
  intros Habsent. rewrite getInvoices_deleteInvoice, getInvoices_saveInvoice.
  rewrite (proj2 (list_find_None _ _)) by assumption.
  rewrite filter_app, filter_id_absent by assumption.
  rewrite filter_cons_False, filter_nil by (intros H; by apply H).
  apply app_nil_r.
Qed.

Lemma saveInvoice_deleteInvoice_witness :
  getInvoices "ali"
    (deleteInvoice "ali" "f4h6j8l" (saveInvoice "ali" (InvoiceObj.of_invoice march_invoice) ∅))
  = [].
Proof.
  exact (saveInvoice_deleteInvoice "ali" (InvoiceObj.of_invoice march_invoice) ∅
           (Forall_nil_2 _)).
Defined.

(** [saveInvoice] and [deleteInvoice] keep the ids of a list distinct. *)
Lemma saveInvoice_NoDup username invoice ls :
  NoDup (ids (getInvoices username ls)) ->
  NoDup (ids (getInvoices username (saveInvoice username invoice ls))).
Proof.
  intros Hnd. rewrite getInvoices_saveInvoice.
  set (old := getInvoices username ls) in *.
  destruct (list_find _ old) as [[i x]|] eqn:Hfind.
  - apply list_find_Some in Hfind as (Hi & Hx & _).
    unfold ids. change (map InvoiceObj.id ?l) with (InvoiceObj.id <$> l).
    rewrite list_fmap_insert, list_insert_id; [exact Hnd|].
    rewrite list_lookup_fmap, Hi. simpl. by rewrite Hx.
  - unfold ids. rewrite map_app. apply NoDup_app. split; [exact Hnd|]. split.
    + intros j Hj Hin. apply list_elem_of_singleton in Hin. simpl in Hin. subst j.
      apply list_find_None in Hfind.
      apply (list_elem_of_fmap InvoiceObj.id) in Hj as (y & Hy & Hin).
      eapply (proj1 (list.Forall_forall _ _) Hfind); eauto.
    + apply NoDup_singleton.
Qed.

Lemma deleteInvoice_NoDup username invoiceId ls :
  NoDup (ids (getInvoices username ls)) ->
  NoDup (ids (getInvoices username (deleteInvoice username invoiceId ls))).
Proof.
  intros Hnd. rewrite getInvoices_deleteInvoice.
  eapply sublist_NoDup; [exact Hnd|]. apply fmap_sublist, sublist_filter.
Qed.

Lemma call_NoDup (c : store_call) ls :
  (forall user, NoDup (ids (getInvoices user ls))) ->
  forall user, NoDup (ids (getInvoices user (call ls c))).
Proof.
  intros Hls user. destruct c as [username invoice|username invoiceId]; simpl.
  - destruct (decide (user = username)) as [->|Hne].
    + by apply saveInvoice_NoDup.
    + by rewrite getInvoices_saveInvoice_other.
  - destruct (decide (user = username)) as [->|Hne].
    + by apply deleteInvoice_NoDup.
    + by rewrite getInvoices_deleteInvoice_other.
Qed.

(** X5. Starting from an empty store, after any sequence of [saveInvoice]
    and [deleteInvoice] calls, for any users and invoices, no two invoices
    in a user's list have the same id. *)
Theorem stored_ids_distinct (calls : list store_call) (user : string) :
  NoDup (ids (getInvoices user (fold_left call calls ∅))).
Proof.
  revert user.
  assert (H0 : forall user, NoDup (ids (getInvoices user (∅ : localStorage)))).
  { intros user. unfold getInvoices. rewrite lookup_empty. constructor. }
  revert H0. generalize (∅ : localStorage) as ls.
  induction calls as [|c calls IH]; intros ls Hls; [exact Hls|].
  simpl. apply IH, call_NoDup, Hls.
Qed.

(** *** [Dashboard.toggleStatus] *)

Lemma toggleStatus_saveInvoice username invoice ls :
  toggleStatus username invoice ls = saveInvoice username (updatedInvoice invoice) ls.
Proof. by destruct invoice. Qed.

Lemma updatedInvoice_involutive invoice : updatedInvoice (updatedInvoice invoice) = invoice.
Proof. by destruct invoice as [? ? ? ? ? [] ? ? ?]. Qed.

Lemma JSON_updatedInvoice invoice :
  JSON.invoice (updatedInvoice invoice) = updatedInvoice (JSON.invoice invoice).
Proof. reflexivity. Qed.

Lemma ids_lookup (l : list InvoiceObj.t) (i : nat) :
  ids l !! i = InvoiceObj.id <$> l !! i.
Proof. apply list_lookup_fmap. Qed.

(** With distinct ids, the first invoice that has the id of a listed invoice
    is that invoice. *)
Lemma find_listed (l : list InvoiceObj.t) (inv : InvoiceObj.t) :
  NoDup (ids l) -> inv ∈ l ->
  exists j, l !! j = Some inv /\
    list_find (fun x => InvoiceObj.id x = InvoiceObj.id inv) l = Some (j, inv).
Proof.
  intros Hnd [k Hk]%list_elem_of_lookup.
  destruct (list_find (fun x => InvoiceObj.id x = InvoiceObj.id inv) l) as [[j x]|] eqn:Hfind.
  - apply list_find_Some in Hfind as (Hj & Hx & _).
    assert (j = k) as ->.
    { apply (NoDup_lookup (ids l) j k (InvoiceObj.id inv) Hnd).
      - rewrite ids_lookup, Hj. simpl. by rewrite Hx.
      - by rewrite ids_lookup, Hk. }
    exists k. split; [exact Hk|]. congruence.
  - apply list_find_None in Hfind.
    eapply (proj1 (list.Forall_lookup _ _)) in Hfind; [|exact Hk]. by destruct Hfind.
Qed.

(** X6. [toggleStatus] stores the invoice it is given with the status
    flipped and nothing else changed (up to what [JSON] keeps of it); and
    when the ids of the user's list are distinct, toggling an invoice of the
    list and then toggling the result gives back the list as it was. *)
Theorem toggleStatus_flips_and_restores username invoice ls :
  load username (InvoiceObj.id invoice) (toggleStatus username invoice ls)
  = Some (updatedInvoice (JSON.invoice invoice)) /\
  (NoDup (ids (getInvoices username ls)) ->
   invoice ∈ getInvoices username ls ->
   getInvoices username
     (toggleStatus username (updatedInvoice invoice) (toggleStatus username invoice ls))
   = getInvoices username ls).
Proof.
  split.
  - rewrite toggleStatus_saveInvoice, <- JSON_updatedInvoice.
    apply (load_saveInvoice username (updatedInvoice invoice)).
  - intros Hnd Hin. rewrite !toggleStatus_saveInvoice, updatedInvoice_involutive.
    destruct (find_listed _ invoice Hnd Hin) as (j & Hj & Hfind).
    assert (Hfix : JSON.invoice invoice = invoice).
    { by eapply getInvoices_lookup_fixed. }
    destruct (find_after_saveInvoice username (updatedInvoice invoice) ls) as (i & Hi & Hij).
    change (InvoiceObj.id (updatedInvoice invoice)) with (InvoiceObj.id invoice) in *.
    rewrite Hfind in Hij. destruct Hij as [-> Hlt].
    rewrite (getInvoices_saveInvoice username invoice), Hi.
    rewrite (getInvoices_saveInvoice username (updatedInvoice invoice)).
    change (InvoiceObj.id (updatedInvoice invoice)) with (InvoiceObj.id invoice).
    rewrite Hfind, list_insert_insert_eq, Hfix. by apply list_insert_id.
Qed.

Lemma toggleStatus_flips_and_restores_witness :
  let ls := saveInvoice "ali" (InvoiceObj.of_invoice march_invoice) ∅ in
  getInvoices "ali"
    (toggleStatus "ali" (updatedInvoice (InvoiceObj.of_invoice march_invoice))
       (toggleStatus "ali" (InvoiceObj.of_invoice march_invoice) ls))
  = getInvoices "ali" ls.
Proof.
  intros ls.
  assert (Hold : getInvoices "ali" ls = [InvoiceObj.of_invoice march_invoice])
    by (vm_compute; reflexivity).
  apply (proj2 (toggleStatus_flips_and_restores "ali"
                  (InvoiceObj.of_invoice march_invoice) ls)).
  - rewrite Hold. unfold ids. simpl. apply NoDup_singleton.
  - rewrite Hold. apply list_elem_of_singleton. reflexivity.
Defined.

(** With distinct ids, the dashboard's update of its list changes the one
    invoice that has the id. *)
Lemma toggleStatus_view_insert (l : list InvoiceObj.t) (inv : InvoiceObj.t) (j : nat) :
  NoDup (ids l) -> l !! j = Some inv ->
  toggleStatus_view inv l = <[j := updatedInvoice inv]> l.
Proof.
  unfold toggleStatus_view, ids. revert j.
  induction l as [|x l IH]; intros j Hnd Hj; [done|].
  apply NoDup_cons in Hnd as [Hx Hnd]. destruct j as [|j]; simpl in *.
  - injection Hj as ->. destruct (decide _) as [_|Hne]; [|by destruct Hne].
    f_equal. apply map_fixed. apply list.Forall_forall. intros y Hy.
    destruct (decide _) as [Heq|]; [|reflexivity].
    destruct Hx. rewrite <- Heq. by apply (list_elem_of_fmap_2 InvoiceObj.id).
  - destruct (decide _) as [Heq|].
    + destruct Hx. rewrite Heq. apply (list_elem_of_fmap_2 InvoiceObj.id).
      eauto using list_elem_of_lookup_2.
    + f_equal. by apply IH.
Qed.

(** X7. The dashboard keeps a list that is a reordering of the stored one
    (it sorts what [getInvoices] returned). When the stored ids are
    distinct, [toggleStatus] on an invoice of the dashboard's list leaves the
    dashboard's updated list a reordering of what the store then holds. *)
Theorem toggleStatus_view_coherent username invoice (invoices : list InvoiceObj.t) ls :
  invoices ≡ₚ getInvoices username ls ->
  NoDup (ids (getInvoices username ls)) ->
  invoice ∈ invoices ->
  toggleStatus_view invoice invoices
  ≡ₚ getInvoices username (toggleStatus username invoice ls).
Proof.
  intros Hperm Hnd Hin. rewrite Hperm in Hin.
  destruct (find_listed _ invoice Hnd Hin) as (j & Hj & Hfind).
  assert (Hfix : JSON.invoice invoice = invoice).
  { by eapply getInvoices_lookup_fixed. }
  rewrite toggleStatus_saveInvoice, getInvoices_saveInvoice.
  change (InvoiceObj.id (updatedInvoice invoice)) with (InvoiceObj.id invoice).
  rewrite Hfind, JSON_updatedInvoice, Hfix.
  rewrite <- (toggleStatus_view_insert _ invoice j Hnd Hj).
  unfold toggleStatus_view. by apply Permutation_map.
Qed.

Lemma toggleStatus_view_coherent_witness :
  let ls := saveInvoice "ali" (InvoiceObj.of_invoice march_invoice) ∅ in
  toggleStatus_view (InvoiceObj.of_invoice march_invoice)
    [InvoiceObj.of_invoice march_invoice]
  ≡ₚ getInvoices "ali" (toggleStatus "ali" (InvoiceObj.of_invoice march_invoice) ls).
Proof.
  intros ls.
  assert (Hold : getInvoices "ali" ls = [InvoiceObj.of_invoice march_invoice])
    by (vm_compute; reflexivity).
  apply toggleStatus_view_coherent.
  - by rewrite Hold.
  - rewrite Hold. unfold ids. simpl. apply NoDup_singleton.
  - apply list_elem_of_singleton. reflexivity.
Defined.

End StoreFacts.

(** ** The editor *)

Section EditorFacts.
Local Open Scope float_scope.

Lemma assign_item_typed (a : item_assign) (it : InvoiceItem.t) :
  assign_item a (ItemObj.of_item it) = ItemObj.of_item (assign_typed a it).
Proof. by destruct it, a. Qed.

Lemma current_calculateRow (it : InvoiceItem.t) :
  current it <-> calculateRow (ItemObj.of_item it) = ItemObj.of_item it.
Proof.
  rewrite calculateRow_typed. destruct it as [i n q r t d u l]. unfold current. simpl.
  split.
  - intros (-> & -> & ->). reflexivity.
  - intros [= H1 H2 H3]. auto.
Qed.

(** What [calculateRow] makes of a well-typed item is current. *)
Lemma calculateRow_current (it : InvoiceItem.t) :
  exists it', calculateRow (ItemObj.of_item it) = ItemObj.of_item it' /\ current it' /\
    InvoiceItem.id it' = InvoiceItem.id it /\ InvoiceItem.name it' = InvoiceItem.name it /\
    InvoiceItem.qty it' = InvoiceItem.qty it /\ InvoiceItem.rate it' = InvoiceItem.rate it /\
    InvoiceItem.discount it' = InvoiceItem.discount it.
Proof.
  eexists. split; [apply calculateRow_typed|]. unfold current. simpl. auto 10.
Qed.

Lemma current_blank (newId : string) : current (blank_item newId).
Proof. unfold current. simpl. vm_compute. auto. Qed.

Lemma current_with_id (newId : string) (it : InvoiceItem.t) :
  current it -> current (with_id newId it).
Proof. by destruct it. Qed.

Lemma current_Set_name (v : string) (it : InvoiceItem.t) :
  current it -> current (assign_typed (Set_name v) it).
Proof. by destruct it. Qed.

Lemma item_array_insert (its : list InvoiceItem.t) (i : nat) (it : InvoiceItem.t) :
  <[i := Obj (ItemObj.of_item it)]> (item_array its) = item_array (<[i := it]> its).
Proof. symmetry. apply (list_fmap_insert (fun x => Obj (ItemObj.of_item x))). Qed.

Lemma payment_array_insert (ps : list PaymentRow.t) (i : nat) (p : PaymentRow.t) :
  <[i := Obj (PaymentObj.of_payment p)]> (payment_array ps) = payment_array (<[i := p]> ps).
Proof. symmetry. apply (list_fmap_insert (fun x => Obj (PaymentObj.of_payment x))). Qed.

Lemma length_item_array (its : list InvoiceItem.t) : length (item_array its) = length its.
Proof. apply length_map. Qed.

Lemma length_payment_array (ps : list PaymentRow.t) : length (payment_array ps) = length ps.
Proof. apply length_map. Qed.

(** The row [updateItem] writes in place of a well-typed row. *)
Lemma updateItem_typed (its : list InvoiceItem.t) (i : nat) (a : item_assign)
    (it : InvoiceItem.t) :
  its !! i = Some it ->
  exists it',
    updateItem i a (item_array its) = item_array (<[i := it']> its) /\
    ItemObj.of_item it'
    = (if recalculates a then calculateRow (ItemObj.of_item (assign_typed a it))
       else ItemObj.of_item (assign_typed a it)).
Proof.
  intros Hit. rewrite (updateItem_in_range its i a it Hit), assign_item_typed.
  destruct (recalculates a).
  - destruct (calculateRow_current (assign_typed a it)) as (it' & Heq & _).
    exists it'. rewrite Heq. split; [apply item_array_insert|reflexivity].
  - exists (assign_typed a it). split; [apply item_array_insert|reflexivity].
Qed.

Lemma addNewRow_typed (newId : string) (its : list InvoiceItem.t) :
  addNewRow newId (item_array its) = item_array (its ++ [blank_item newId]).
Proof.
  unfold addNewRow. rewrite spread_item_array. unfold item_array. by rewrite map_app.
Qed.

Lemma deleteRow_typed (i : nat) (its : list InvoiceItem.t) :
  deleteRow i (item_array its)
  = item_array (if decide (1 < length its) then delete i its else its).
Proof.
  unfold deleteRow. rewrite length_item_array.
  destruct (decide (1 < length its)); [|reflexivity].
  rewrite spread_item_array. unfold splice_delete, item_array.
  rewrite delete_take_drop, map_app.
  change (map ?f ?l) with (f <$> l). by rewrite fmap_take, fmap_drop.
Qed.

Lemma addPaymentRow_typed (newId : string) (ps : list PaymentRow.t) :
  addPaymentRow newId (payment_array ps)
  = payment_array (ps ++ [PaymentRow.mk newId EmptyString 0]).
Proof.
  unfold addPaymentRow. rewrite spread_payment_array. unfold payment_array.
  by rewrite map_app.
Qed.

Lemma deletePayment_typed (i : nat) (ps : list PaymentRow.t) :
  deletePayment i (payment_array ps) = payment_array (delete i ps).
Proof.
  unfold deletePayment. rewrite spread_payment_array. unfold splice_delete, payment_array.
  rewrite delete_take_drop, map_app.
  change (map ?f ?l) with (f <$> l). by rewrite fmap_take, fmap_drop.
Qed.

Lemma updatePayment_typed (ps : list PaymentRow.t) (i : nat) (a : payment_assign)
    (p : PaymentRow.t) :
  ps !! i = Some p ->
  exists p', updatePayment i a (payment_array ps) = payment_array (<[i := p']> ps) /\
    PaymentObj.of_payment p' = assign_payment a (PaymentObj.of_payment p).
Proof.
  intros Hp. unfold updatePayment, spread_at, array_set.
  rewrite spread_payment_array, length_payment_array.
  rewrite (list_lookup_fmap (fun p => Obj (PaymentObj.of_payment p)) ps i : payment_array ps !! i = _).
  rewrite Hp. simpl.
  assert (i < length ps) by eauto using lookup_lt_Some.
  destruct (decide (i < length ps)); [|lia].
  exists (match a with
          | Set_pid v => PaymentRow.mk v (PaymentRow.narration p) (PaymentRow.amount p)
          | Set_narration v => PaymentRow.mk (PaymentRow.id p) v (PaymentRow.amount p)
          | Set_amount v => PaymentRow.mk (PaymentRow.id p) (PaymentRow.narration p) v
          end).
  split; [|by destruct p, a].
  rewrite <- payment_array_insert. by destruct p, a.
Qed.

Lemma of_item_inj (a b : InvoiceItem.t) : ItemObj.of_item a = ItemObj.of_item b -> a = b.
Proof. destruct a, b. intros [= -> -> -> -> -> -> -> ->]. reflexivity. Qed.

(** The invariant of the editor of a new invoice. *)
Lemma reachable_invariant (st : Editor) :
  reachable st ->
  exists (its : list InvoiceItem.t) (ps : list PaymentRow.t),
    items st = item_array its /\ payments st = payment_array ps /\
    1 <= length its /\ Forall current its.
Proof.
  induction 1 as [today newId|st act _ (its & ps & Hits & Hps & Hlen & Hcur) Hact].
  { exists [blank_item newId], []. repeat split; [simpl; lia|].
    constructor; [apply current_blank|constructor]. }
  destruct st as [n d items0 payments0 s]. simpl in Hits, Hps. subst items0 payments0.
  destruct act as [v|v|v|i a|newId|i|i newId|newId|i a|i]; simpl in Hact |- *;
    rewrite ?length_item_array, ?length_payment_array in Hact;
    try (by exists its, ps).
  - apply andb_true_iff in Hact as [Hi%bool_decide_eq_true Ha].
    destruct (lookup_lt_is_Some_2 its i Hi) as [it Hit].
    destruct (updateItem_typed its i a it Hit) as (it' & Heq & Hit').
    exists (<[i := it']> its), ps. rewrite length_insert.
    repeat split; try done. apply Forall_insert; [exact Hcur|].
    assert (Hc : current it) by (eapply (proj1 (list.Forall_lookup _ _)); eauto).
    destruct a; try discriminate; simpl in Hit'.
    + apply of_item_inj in Hit' as ->. by apply current_Set_name.
    + destruct (calculateRow_current (assign_typed (Set_qty value) it)) as (x & Hx & ? & _).
      rewrite Hx in Hit'. by apply of_item_inj in Hit' as ->.
    + destruct (calculateRow_current (assign_typed (Set_rate value) it)) as (x & Hx & ? & _).
      rewrite Hx in Hit'. by apply of_item_inj in Hit' as ->.
    + destruct (calculateRow_current (assign_typed (Set_discount value) it))
        as (x & Hx & ? & _).
      rewrite Hx in Hit'. by apply of_item_inj in Hit' as ->.
  - exists (its ++ [blank_item newId]), ps. rewrite addNewRow_typed, length_app.
    repeat split; try done; [simpl; lia|].
    apply Forall_app. split; [exact Hcur|].
    constructor; [apply current_blank|constructor].
  - apply bool_decide_eq_true in Hact. rewrite deleteRow_typed.
    destruct (decide (1 < length its)); [|by exists its, ps].
    exists (delete i its), ps. repeat split; try done.
    + rewrite length_delete by (by apply lookup_lt_is_Some_2). lia.
    + by apply Forall_delete.
  - apply bool_decide_eq_true in Hact.
    destruct (lookup_lt_is_Some_2 its i Hact) as [it Hit].
    exists (take (S i) its ++ with_id newId it :: drop (S i) its), ps.
    rewrite (duplicateRow_typed its i it newId Hit), length_app. simpl.
    repeat split; try done; [lia|].
    apply Forall_app. split; [by apply Forall_take|].
    constructor; [|by apply Forall_drop].
    apply current_with_id. eapply (proj1 (list.Forall_lookup _ _)); eauto.
  - exists its, (ps ++ [PaymentRow.mk newId EmptyString 0]).
    by rewrite addPaymentRow_typed.
  - apply andb_true_iff in Hact as [Hi%bool_decide_eq_true _].
    destruct (lookup_lt_is_Some_2 ps i Hi) as [p Hp].
    destruct (updatePayment_typed ps i a p Hp) as (p' & Heq & _).
    by exists its, (<[i := p']> ps).
  - exists its, (delete i ps). by rewrite deletePayment_typed.
Qed.

(** X8. In every state the editor of a new invoice reaches through the
    actions its page can issue, the items and the payments are well-typed
    arrays without gaps, there is at least one row, and the derived fields
    of every row are current: [tp], [totalPerPiece] and [totalAmount] are
    what the pricing engine gives for the row's rate, discount and qty. So
    the render's reducers never throw there: the totals are the sums. *)
Theorem reachable_rows_current (st : Editor) :
  reachable st ->
  exists (its : list InvoiceItem.t) (ps : list PaymentRow.t),
    items st = item_array its /\ payments st = payment_array ps /\
    1 <= length its /\ Forall current its /\
    grandTotal (items st) = Some (fsum (map InvoiceItem.totalAmount its)) /\
    totalPaid (payments st) = Some (fsum (map PaymentRow.amount ps)).
Proof.
  intros (its & ps & Hits & Hps & Hlen & Hcur)%reachable_invariant.
  exists its, ps. rewrite Hits, Hps. repeat split; try done.
  - apply (reduce_sum_typed ItemObj.of_item).
  - apply (reduce_sum_typed PaymentObj.of_payment).
Qed.

Lemma reachable_rows_current_witness :
  exists (its : list InvoiceItem.t),
    items (step (step (newEditor "2026-03-01" "k3x9q1z") (UpdateItem 0 (Set_rate 100)))
                (UpdateItem 0 (Set_qty 2)))
    = item_array its /\ Forall current its.
Proof.
  destruct (reachable_rows_current
              (step (step (newEditor "2026-03-01" "k3x9q1z") (UpdateItem 0 (Set_rate 100)))
                    (UpdateItem 0 (Set_qty 2)))) as (its & ps & H1 & _ & _ & H2 & _).
  { apply reachable_step; [apply reachable_step; [apply reachable_new|]|]; reflexivity. }
  by exists its.
Defined.

End EditorFacts.

(** ** [handleSave] and the editor's round trip through the store *)

Section SnapshotFacts.
Implicit Types (username : string) (ls : localStorage).

Lemma invoiceData_typed (n d : string) (its : list InvoiceItem.t) (ps : list PaymentRow.t)
    (s : InvoiceStatus) (existingInvoiceId : option string) (newId : string) (now : float) :
  invoiceData (typed_editor n d its ps s) existingInvoiceId newId now
  = Some (InvoiceObj.of_invoice
            (typed_snapshot (or_generated existingInvoiceId newId) n d its ps s now)).
Proof.
  unfold invoiceData, remainingBalance, typed_editor, grandTotal, totalPaid. simpl.
  unfold item_array, payment_array.
  rewrite (reduce_sum_typed ItemObj.of_item), (reduce_sum_typed PaymentObj.of_payment).
  reflexivity.
Qed.

Lemma handleSave_typed (n d : string) (its : list InvoiceItem.t) (ps : list PaymentRow.t)
    (s : InvoiceStatus) username (existingInvoiceId : option string) (newId : string)
    (now : float) ls :
  n <> EmptyString ->
  handleSave (typed_editor n d its ps s) username existingInvoiceId newId now ls
  = saveInvoice username
      (InvoiceObj.of_invoice
         (typed_snapshot (or_generated existingInvoiceId newId) n d its ps s now)) ls.
Proof. intros Hn. apply handleSave_saves; [exact Hn|apply invoiceData_typed]. Qed.

(** X9. From every reachable state of the editor with a non-empty invoice
    name, [handleSave] does write: it hands [saveInvoice] a well-typed
    invoice carrying the editor's rows and payments as they are, in which
    every row's derived fields are current, [totalAmount] is the sum of the
    rows' [totalAmount] and [remainingBalance] is that sum minus the sum of
    the payments' [amount]. What is then read back under its id is the
    [JSON] image of that invoice: the invoice itself when all its numbers
    are finite and not [-0], and otherwise (a total that overflowed, say)
    with [null] in the place of each number that is not. *)
Theorem handleSave_stores_current_snapshot (st : Editor) username
    (existingInvoiceId : option string) (newId : string) (now : float) ls :
  reachable st ->
  invoiceName st <> EmptyString ->
  exists (v : Invoice.t),
    handleSave st username existingInvoiceId newId now ls
    = saveInvoice username (InvoiceObj.of_invoice v) ls /\
    items st = item_array (Invoice.items v) /\
    payments st = payment_array (Invoice.payments v) /\
    Invoice.name v = invoiceName st /\ Invoice.date v = invoiceDate st /\
    Invoice.status v = status st /\
    Invoice.id v = or_generated existingInvoiceId newId /\
    Forall current (Invoice.items v) /\
    Invoice.totalAmount v = fsum (map InvoiceItem.totalAmount (Invoice.items v)) /\
    Invoice.remainingBalance v
    = (Invoice.totalAmount v - fsum (map PaymentRow.amount (Invoice.payments v)))%float /\
    load username (Invoice.id v) (handleSave st username existingInvoiceId newId now ls)
    = Some (JSON.invoice (InvoiceObj.of_invoice v)) /\
    (invoice_exact v ->
     load username (Invoice.id v) (handleSave st username existingInvoiceId newId now ls)
     = Some (InvoiceObj.of_invoice v)).
Proof.
  intros Hreach Hname.
  destruct (reachable_invariant st Hreach) as (its & ps & Hits & Hps & _ & Hcur).
  destruct st as [n d items0 payments0 s]. simpl in *. subst items0 payments0.
  set (v := typed_snapshot (or_generated existingInvoiceId newId) n d its ps s now).
  assert (Hsave : handleSave (mkEditor n d (item_array its) (payment_array ps) s)
                    username existingInvoiceId newId now ls
                  = saveInvoice username (InvoiceObj.of_invoice v) ls)
    by (by apply (handleSave_typed n d its ps s)).
  assert (Hload : load username (Invoice.id v)
                    (saveInvoice username (InvoiceObj.of_invoice v) ls)
                  = Some (JSON.invoice (InvoiceObj.of_invoice v)))
    by apply (load_saveInvoice username (InvoiceObj.of_invoice v) ls).
  exists v. rewrite Hsave.
  do 10 (split; [done|]). split; [exact Hload|].
  intros Hexact. rewrite Hload. f_equal. by apply JSON_invoice_exact.
Qed.

Lemma handleSave_stores_current_snapshot_witness :
  exists (v : Invoice.t),
    handleSave (step (newEditor "2026-03-01" "k3x9q1z") (SetInvoiceName "Stock"))
      "ali" None "f4h6j8l" first_save ∅
    = saveInvoice "ali" (InvoiceObj.of_invoice v) ∅ /\
    Invoice.id v = "f4h6j8l" /\ Forall current (Invoice.items v) /\
    load "ali" (Invoice.id v)
      (handleSave (step (newEditor "2026-03-01" "k3x9q1z") (SetInvoiceName "Stock"))
         "ali" None "f4h6j8l" first_save ∅)
    = Some (JSON.invoice (InvoiceObj.of_invoice v)).
Proof.
  destruct (handleSave_stores_current_snapshot
              (step (newEditor "2026-03-01" "k3x9q1z") (SetInvoiceName "Stock"))
              "ali" None "f4h6j8l" first_save ∅)
    as (v & H1 & _ & _ & _ & _ & _ & H2 & H3 & _ & _ & H4 & _).
  { apply reachable_step; [apply reachable_new|reflexivity]. }
  { discriminate. }
  by exists v.
Defined.

(** X10. The editor of a new invoice does not learn the id its first save
    drew: a second save from the same editor, with another drawn id, stores
    a second invoice with the same contents after the first one. *)
Theorem handleSave_new_twice (n d : string) (its : list InvoiceItem.t)
    (ps : list PaymentRow.t) (s : InvoiceStatus) username (id1 id2 : string)
    (t1 t2 : float) ls :
  n <> EmptyString ->
  id1 <> id2 ->
  Forall (fun inv => InvoiceObj.id inv <> id1) (getInvoices username ls) ->
  Forall (fun inv => InvoiceObj.id inv <> id2) (getInvoices username ls) ->
  let st := typed_editor n d its ps s in
  getInvoices username
    (handleSave st username None id2 t2 (handleSave st username None id1 t1 ls))
  = getInvoices username ls
    ++ [JSON.invoice (InvoiceObj.of_invoice (typed_snapshot id1 n d its ps s t1));
        JSON.invoice (InvoiceObj.of_invoice (typed_snapshot id2 n d its ps s t2))].
Proof.
  intros Hn Hne H1 H2 st. subst st. rewrite !handleSave_typed by assumption. simpl.
  rewrite getInvoices_saveInvoice, getInvoices_saveInvoice.
  rewrite (proj2 (list_find_None _ (getInvoices username ls))) by exact H1.
  rewrite (proj2 (list_find_None _ (_ ++ _))).
  - by rewrite <- app_assoc.
  - apply Forall_app. split; [exact H2|]. constructor; [|constructor]. simpl. congruence.
Qed.

Lemma handleSave_new_twice_witness :
  length (getInvoices "ali"
            (handleSave march_editor "ali" None "g2n5b8v" second_save
               (handleSave march_editor "ali" None "f4h6j8l" first_save ∅))) = 2.
Proof.
  unfold march_editor, paid_editor.
  rewrite (handleSave_new_twice "March" "2026-03-01" _ _ PENDING "ali" "f4h6j8l" "g2n5b8v"
             first_save second_save ∅);
    [reflexivity|discriminate|discriminate|constructor|constructor].
Defined.

Lemma JSON_items_exact (its : list InvoiceItem.t) :
  Forall item_exact its -> map (JSON.element JSON.item) (item_array its) = item_array its.
Proof.
  intros H. unfold item_array. rewrite map_map. apply Forall_fmap_ext_1.
  eapply Forall_impl; [exact H|]. intros it Hit. simpl. by rewrite JSON_item_exact.
Qed.

Lemma JSON_payments_exact (ps : list PaymentRow.t) :
  Forall (fun p => json_exact (PaymentRow.amount p) = true) ps ->
  map (JSON.element JSON.payment) (payment_array ps) = payment_array ps.
Proof.
  intros H. unfold payment_array. rewrite map_map. apply Forall_fmap_ext_1.
  eapply Forall_impl; [exact H|]. intros p Hp. simpl.
  unfold JSON.payment. simpl. by rewrite JSON_num_exact.
Qed.

(** X11. Saving a well-typed editor (non-empty name; every number of its
    rows and payments finite and not [-0]) and then mounting the editor on
    the id it was saved under gives back the same name, date, rows, payments
    and status, whatever else the store holds. *)
Theorem handleSave_mountEditor (n d : string) (its : list InvoiceItem.t)
    (ps : list PaymentRow.t) (s : InvoiceStatus) username
    (existingInvoiceId : option string) (newId : string) (now : float)
    (today newId' : string) ls :
  n <> EmptyString ->
  or_generated existingInvoiceId newId <> EmptyString ->
  Forall item_exact its ->
  Forall (fun p => json_exact (PaymentRow.amount p) = true) ps ->
  mountEditor (Some (or_generated existingInvoiceId newId)) today newId' username
    (handleSave (typed_editor n d its ps s) username existingInvoiceId newId now ls)
  = typed_editor n d its ps s.
Proof.
  intros Hn Hid Hits Hps. rewrite handleSave_typed by assumption.
  unfold mountEditor. destruct (decide _) as [|_]; [done|].
  set (v := typed_snapshot _ n d its ps s now).
  rewrite (load_saveInvoice username (InvoiceObj.of_invoice v) ls : load username
             (or_generated existingInvoiceId newId) _ = _).
  unfold typed_editor. simpl. by rewrite JSON_items_exact, JSON_payments_exact.
Qed.

Lemma handleSave_mountEditor_witness :
  mountEditor (Some "f4h6j8l") "2026-03-02" "g2n5b8v" "ali"
    (handleSave march_editor "ali" None "f4h6j8l" first_save ∅)
  = march_editor.
Proof.
  apply (handleSave_mountEditor "March" "2026-03-01" _ _ PENDING "ali" None "f4h6j8l"
           first_save "2026-03-02" "g2n5b8v" ∅); try discriminate.
  - repeat constructor.
  - repeat constructor.
Defined.

End SnapshotFacts.

(** ** Row operations on well-typed arrays *)

Section RowFacts.

(** X12. [updateItem] at the index of a row of a well-typed array returns a
    well-typed array of the same length in which only that row differs. The
    new row has the assigned field and otherwise the id, name, qty, rate
    and discount of the old one; its derived fields are current when the
    field is rate, qty or discount, and untouched otherwise. *)
Theorem updateItem_changes_one_row (its : list InvoiceItem.t) (i : nat) (a : item_assign)
    (it : InvoiceItem.t) :
  its !! i = Some it ->
  exists it',
    updateItem i a (item_array its) = item_array (<[i := it']> its) /\
    length (<[i := it']> its) = length its /\
    (forall j, j <> i -> <[i := it']> its !! j = its !! j) /\
    InvoiceItem.id it' = InvoiceItem.id (assign_typed a it) /\
    InvoiceItem.name it' = InvoiceItem.name (assign_typed a it) /\
    InvoiceItem.qty it' = InvoiceItem.qty (assign_typed a it) /\
    InvoiceItem.rate it' = InvoiceItem.rate (assign_typed a it) /\
    InvoiceItem.discount it' = InvoiceItem.discount (assign_typed a it) /\
    (if recalculates a then current it' else it' = assign_typed a it).
Proof.
  intros Hit. destruct (updateItem_typed its i a it Hit) as (it' & Heq & Hit').
  exists it'. split; [exact Heq|]. split; [apply length_insert|].
  split; [intros j Hj; by apply list_lookup_insert_ne|].
  destruct (recalculates a).
  - destruct (calculateRow_current (assign_typed a it)) as (x & Hx & Hc & H1 & H2 & H3 & H4 & H5).
    rewrite Hx in Hit'. apply of_item_inj in Hit' as ->. auto 10.
  - apply of_item_inj in Hit' as ->. auto 10.
Qed.

Lemma updateItem_changes_one_row_witness :
  exists it',
    updateItem 0 (Set_qty 1000) (item_array [typed_row 100 1 (-10)])
    = item_array [it'] /\
    InvoiceItem.qty it' = 1000%float /\ current it'.
Proof.
  destruct (updateItem_changes_one_row [typed_row 100 1 (-10)] 0 (Set_qty 1000)
              (typed_row 100 1 (-10)) eq_refl)
    as (it' & H1 & _ & _ & _ & _ & H2 & _ & _ & H3).
  exists it'. auto.
Defined.

Lemma updated_row_same_field (a b : item_assign) (o : ItemObj.t) :
  same_field a b = true -> updated_row b (updated_row a o) = updated_row b o.
Proof. by destruct o, a, b. Qed.

Lemma updateItem_updated_row (its : list InvoiceItem.t) (i : nat) (a : item_assign)
    (it : InvoiceItem.t) :
  its !! i = Some it ->
  updateItem i a (item_array its)
  = <[i := Obj (updated_row a (ItemObj.of_item it))]> (item_array its).
Proof. apply updateItem_in_range. Qed.

(** X13. A later edit of a cell overrides an earlier edit of the same cell
    entirely: on a well-typed array, two [updateItem] at the same row for the
    same field have the effect of the second alone. *)
Theorem updateItem_last_write_wins (its : list InvoiceItem.t) (i : nat)
    (a b : item_assign) :
  i < length its ->
  same_field a b = true ->
  updateItem i b (updateItem i a (item_array its)) = updateItem i b (item_array its).
Proof.
  intros Hi Hab. destruct (lookup_lt_is_Some_2 its i Hi) as [it Hit].
  destruct (updateItem_typed its i a it Hit) as (it' & Heq & Hit').
  rewrite Heq.
  rewrite (updateItem_updated_row (<[i := it']> its) i b it')
    by (by apply list_lookup_insert_eq).
  rewrite (updateItem_updated_row its i b it Hit).
  rewrite <- item_array_insert, list_insert_insert_eq. do 2 f_equal.
  rewrite Hit', <- !assign_item_typed.
  by apply (updated_row_same_field a b (ItemObj.of_item it)).
Qed.

Lemma updateItem_last_write_wins_witness :
  updateItem 0 (Set_qty 3) (updateItem 0 (Set_qty 2) (item_array [typed_row 100 1 0]))
  = updateItem 0 (Set_qty 3) (item_array [typed_row 100 1 0]).
Proof.
  apply (updateItem_last_write_wins [typed_row 100 1 0] 0 (Set_qty 2) (Set_qty 3));
    [simpl; lia|reflexivity].
Defined.

(** X14. [deleteRow] undoes [duplicateRow] and [addNewRow]: on a well-typed
    array, deleting the copy just inserted after row [i], or the blank row
    just appended to a non-empty array, gives back the array as it was. *)
Theorem deleteRow_undoes_insertion (its : list InvoiceItem.t) (newId : string) :
  (forall i, i < length its ->
     deleteRow (S i) (duplicateRow i newId (item_array its)) = item_array its) /\
  (1 <= length its ->
     deleteRow (length its) (addNewRow newId (item_array its)) = item_array its).
Proof.
  split.
  - intros i Hi. destruct (lookup_lt_is_Some_2 its i Hi) as [it Hit].
    rewrite (duplicateRow_typed its i it newId Hit), deleteRow_typed.
    assert (Hl : length (take (S i) its) = S i) by (rewrite length_take; lia).
    destruct (decide _) as [_|Hn].
    + f_equal. rewrite delete_take_drop.
      rewrite take_app_length' by lia. rewrite drop_app_ge by lia.
      rewrite Hl. replace (S (S i) - S i) with 1 by lia. simpl. rewrite drop_0.
      apply take_drop.
    + exfalso. apply Hn. rewrite length_app, Hl. simpl. lia.
  - intros Hlen. rewrite addNewRow_typed, deleteRow_typed.
    destruct (decide _) as [_|Hn].
    + f_equal. rewrite delete_take_drop, take_app_length. rewrite drop_app_ge by lia.
      replace (S (length its) - length its) with 1 by lia. simpl. apply app_nil_r.
    + exfalso. apply Hn. rewrite length_app. simpl. lia.
Qed.

Lemma deleteRow_undoes_insertion_witness :
  deleteRow 1 (duplicateRow 0 "p7w2m4c" (item_array [typed_row 100 2 0]))
  = item_array [typed_row 100 2 0] /\
  deleteRow 1 (addNewRow "p7w2m4c" (item_array [typed_row 100 2 0]))
  = item_array [typed_row 100 2 0].
Proof.
  split.
  - apply (proj1 (deleteRow_undoes_insertion [typed_row 100 2 0] "p7w2m4c") 0).
    simpl. lia.
  - apply (proj2 (deleteRow_undoes_insertion [typed_row 100 2 0] "p7w2m4c")).
    simpl. lia.
Defined.

(** X15. On a well-typed array of at least two rows, [deleteRow] at the
    index of a row removes that row and no other: the rows before it stay
    where they are and the rows after it move down by one. At an index past
    the end it changes nothing. *)
Theorem deleteRow_removes_one_row (its : list InvoiceItem.t) (i : nat) :
  1 < length its ->
  (i < length its ->
     exists its',
       deleteRow i (item_array its) = item_array its' /\
       S (length its') = length its /\
       (forall j, j < i -> its' !! j = its !! j) /\
       (forall j, i <= j -> its' !! j = its !! (S j))) /\
  (length its <= i -> deleteRow i (item_array its) = item_array its).
Proof.
  intros Hlen. rewrite deleteRow_typed. destruct (decide _) as [_|]; [|lia]. split.
  - intros Hi. exists (delete i its). split; [reflexivity|]. split.
    + rewrite length_delete by (by apply lookup_lt_is_Some_2). lia.
    + split; intros j Hj; [by apply list_lookup_delete_lt|by apply list_lookup_delete_ge].
  - intros Hi. f_equal. rewrite delete_take_drop, take_ge, drop_ge by lia. apply app_nil_r.
Qed.

Lemma deleteRow_removes_one_row_witness :
  deleteRow 0 (item_array [typed_row 100 2 0; blank_item "a5d8e0f"])
  = item_array [blank_item "a5d8e0f"].
Proof.
  destruct (deleteRow_removes_one_row [typed_row 100 2 0; blank_item "a5d8e0f"] 0)
    as [H _]; [simpl; lia|].
  destruct H as (its' & H1 & _ & _ & H2); [simpl; lia|].
  rewrite H1. f_equal.
  pose proof (H2 0 (le_n 0)) as H0. pose proof (H2 1 (le_S _ _ (le_n 0))) as H3.
  destruct its' as [|x [|y its']]; simpl in *; congruence.
Defined.

(** X16. [duplicateRow] at an index past the end does not fail either: it
    appends a row that has an id and nothing else. *)
Theorem duplicateRow_out_of_range (its : list InvoiceItem.t) (index : nat)
    (newId : string) :
  length its <= index ->
  duplicateRow index newId (item_array its)
  = item_array its
    ++ [Obj (ItemObj.mk (Some newId) None NUndef NUndef NUndef NUndef NUndef NUndef)].
Proof.
  intros Hi. unfold duplicateRow, spread_at, splice_insert.
  rewrite spread_item_array.
  rewrite (lookup_ge_None_2 (item_array its) index) by (rewrite length_item_array; lia).
  rewrite take_ge, drop_ge by (rewrite length_item_array; lia). reflexivity.
Qed.

Lemma duplicateRow_out_of_range_witness :
  duplicateRow 5 "p7w2m4c" (item_array [blank_item "k3x9q1z"])
  = [Obj (ItemObj.of_item (blank_item "k3x9q1z"));
     Obj (ItemObj.mk (Some "p7w2m4c") None NUndef NUndef NUndef NUndef NUndef NUndef)].
Proof.
  apply (duplicateRow_out_of_range [blank_item "k3x9q1z"] 5 "p7w2m4c"). simpl. lia.
Defined.

End RowFacts.

(** ** The pricing engine *)

Section PricingEdgeFacts.
Local Open Scope float_scope.

(** X17. [calculateRow] reads only [rate], [discount] and [qty]: whatever
    the three derived fields of its argument hold, the result is the same;
    so deriving again a row that was derived changes nothing. This holds for
    every object, well typed or not. *)
Theorem calculateRow_idempotent (o : ItemObj.t) :
  calculateRow (calculateRow o) = calculateRow o /\
  (forall x y z : float,
     calculateRow
       (assign_item (Set_tp x)
          (assign_item (Set_totalPerPiece y) (assign_item (Set_totalAmount z) o)))
     = calculateRow o).
Proof. by destruct o. Qed.

(** X18. A rate that is not greater than 0 (zero, negative or [NaN]) is
    priced as no rate at all: with finite discount and qty, the trade price,
    the effective unit price and the line total are 0. *)
Theorem calculateRow_nonpositive_rate (it : InvoiceItem.t) :
  (0 <? InvoiceItem.rate it) = false ->
  isFinite (InvoiceItem.discount it) = true ->
  isFinite (InvoiceItem.qty it) = true ->
  all_zero (calculateRow (ItemObj.of_item it)).
Proof.
  intros Hr Hd Hq. rewrite calculateRow_typed.
  destruct it as [i n qty rate t discount u l]. simpl in *.
  assert (Ht : spec_tradePrice rate = 0) by (unfold spec_tradePrice; by rewrite Hr).
  assert (Hu : spec_effectiveUnitPrice rate discount = 0).
  { unfold spec_effectiveUnitPrice, spec_discountBase. rewrite Ht.
    destruct (is0 discount); [reflexivity|].
    change (0 * (1 - 0.15)) with 0.
    apply add_0_is0, mul_is0_finite; [reflexivity|]. by apply isFinite_div_100. }
  unfold all_zero, spec_lineTotal. simpl. rewrite Ht, Hu.
  split; [reflexivity|]. split; [reflexivity|].
  f_equal. apply round2_is0, mul_is0_finite; [reflexivity|assumption].
Qed.

Lemma calculateRow_nonpositive_rate_witness :
  all_zero (calculateRow (ItemObj.of_item (typed_row (-250) 3 (-5)))).
Proof.
  exact (calculateRow_nonpositive_rate (typed_row (-250) 3 (-5)) eq_refl eq_refl eq_refl).
Defined.

(** X19. With a discount of 0 (or [-0]) the second margin is not applied:
    the stored effective unit price is the stored trade price, and the line
    total is the rounding of the unrounded trade price times qty. *)
Theorem calculateRow_no_discount (it : InvoiceItem.t) :
  is0 (InvoiceItem.discount it) = true ->
  let r := calculateRow (ItemObj.of_item it) in
  ItemObj.totalPerPiece r = ItemObj.tp r /\
  ItemObj.totalAmount r
  = Num (round2 (spec_tradePrice (InvoiceItem.rate it) * InvoiceItem.qty it)).
Proof.
  intros Hd r. subst r. rewrite calculateRow_typed. simpl.
  unfold spec_lineTotal, spec_effectiveUnitPrice. by rewrite Hd.
Qed.

Lemma calculateRow_no_discount_witness :
  let r := calculateRow (ItemObj.of_item (typed_row 100 2 (-0))) in
  ItemObj.totalPerPiece r = Num 85.5 /\ ItemObj.totalAmount r = Num 171.
Proof.
  destruct (calculateRow_no_discount (typed_row 100 2 (-0)) eq_refl) as [H1 H2].
  split; [exact H1|exact H2].
Defined.

(** The sign of a rounded result is the sign that was passed in. *)
Lemma binary_round_aux_opp (sx : bool) (mx ex : Z) (lx : location) :
  binary_round_aux prec emax (negb sx) mx ex lx
  = SFopp (binary_round_aux prec emax sx mx ex lx).
Proof.
  unfold binary_round_aux. destruct (shr_fexp prec emax mx ex lx) as [mrs' e'].
  destruct (shr_fexp prec emax _ e' loc_Exact) as [mrs'' e''].
  destruct (shr_m mrs''); [reflexivity| |reflexivity].
  by destruct (_ <=? _)%Z.
Qed.

Lemma SF64mul_opp_r (x y : spec_float) : SF64mul x (SFopp y) = SFopp (SF64mul x y).
Proof.
  destruct x as [sx|sx| |sx mx ex], y as [sy|sy| |sy my ey]; simpl;
    try reflexivity; try (by destruct sx, sy).
  unfold SF64mul, SFmul. destruct sx, sy; apply (binary_round_aux_opp _).
Qed.

Lemma mul_opp_r (x y : float) : x * (- y) = - (x * y).
Proof.
  apply Prim2SF_inj.
  rewrite FloatAxioms.opp_spec, !FloatAxioms.mul_spec, FloatAxioms.opp_spec.
  apply SF64mul_opp_r.
Qed.

Lemma opp_involutive (x : float) : - - x = x.
Proof.
  apply Prim2SF_inj. rewrite !FloatAxioms.opp_spec. by destruct (Prim2SF x) as [[]|[]| |[] ? ?].
Qed.

Lemma SF2Prim_opp (y : spec_float) : SF2Prim (SFopp y) = - SF2Prim y.
Proof.
  destruct y as [[]|[]| |[] m e]; simpl; try reflexivity.
  all: symmetry; apply opp_involutive.
Qed.

(** [toFixed(2)] rounds a number and its opposite to opposite decimals; only
    the two zeros both come out as [0]. *)
Lemma round2_opp (x : float) : is0 x = false -> round2 (- x) = - round2 x.
Proof.
  intros Hx. unfold round2, toFixed2. rewrite FloatAxioms.opp_spec.
  destruct (Prim2SF x) as [s|s| |s m e] eqn:E; simpl.
  - by rewrite (zero_is0 x s E) in Hx.
  - by destruct s.
  - reflexivity.
  - destruct (ge_1e21 m e); [reflexivity|]. simpl.
    destruct (hundredths m e) as [|n|n]; simpl.
    + by destruct s.
    + rewrite <- SF2Prim_opp. f_equal. unfold SF64div, SFdiv.
      destruct (SFdiv_core_binary _ _ _ _ _ _) as [[mz ez] lz].
      destruct s; [apply (binary_round_aux_opp true)|apply (binary_round_aux_opp false)].
    + reflexivity.
Qed.

(** X20. A quantity typed with the opposite sign (a return instead of a
    sale) gives the opposite line total, to the cent, and the same trade
    price and unit price, whenever the unrounded line total is not zero
    (where both line totals are 0). *)
Theorem calculateRow_opposite_qty (it : InvoiceItem.t) :
  let sale := calculateRow (ItemObj.of_item it) in
  let back := calculateRow (ItemObj.of_item (assign_typed (Set_qty (- InvoiceItem.qty it)) it)) in
  ItemObj.tp back = ItemObj.tp sale /\
  ItemObj.totalPerPiece back = ItemObj.totalPerPiece sale /\
  (is0 (spec_lineTotal (InvoiceItem.rate it) (InvoiceItem.discount it) (InvoiceItem.qty it))
   = false ->
   ItemObj.totalAmount back = Num (- ToNumber (ItemObj.totalAmount sale))) /\
  (is0 (spec_lineTotal (InvoiceItem.rate it) (InvoiceItem.discount it) (InvoiceItem.qty it))
   = true ->
   ItemObj.totalAmount back = Num 0 /\ ItemObj.totalAmount sale = Num 0).
Proof.
  intros sale back. subst sale back. rewrite !calculateRow_typed.
  destruct it as [i n q r t d u l]. simpl. unfold spec_lineTotal.
  split; [reflexivity|]. split; [reflexivity|]. rewrite mul_opp_r. split.
  - intros Hz. f_equal. by apply round2_opp.
  - intros Hz. split; f_equal; apply round2_is0; [|exact Hz].
    destruct (is0_zero _ Hz) as [s E]. apply (zero_is0 _ (negb s)).
    by rewrite FloatAxioms.opp_spec, E.
Qed.

Lemma calculateRow_opposite_qty_witness :
  ItemObj.totalAmount (calculateRow (ItemObj.of_item (typed_row 100 (-1000) (-10))))
  = Num (-65407.5).
Proof.
  destruct (calculateRow_opposite_qty (typed_row 100 1000 (-10))) as (_ & _ & H & _).
  exact (H eq_refl).
Defined.

End PricingEdgeFacts.

(** ** Keyboard navigation *)

Section NavigationFacts.

Lemma lookup_item_array (its : list InvoiceItem.t) (i : nat) :
  item_array its !! i = (fun it => Obj (ItemObj.of_item it)) <$> its !! i.
Proof. apply list_lookup_fmap. Qed.

Lemma getCell_item_array (its : list InvoiceItem.t) (r : nat) (c : column) :
  r < length its -> c <> C_totalAmount ->
  getCell (item_array its) (Z.of_nat r) (Some c) = Some (r, c).
Proof.
  intros Hr Hc. unfold getCell.
  destruct (Z.ltb_spec (Z.of_nat r) 0) as [?|_]; [lia|].
  rewrite Nat2Z.id, lookup_item_array.
  destruct (lookup_lt_is_Some_2 its r Hr) as [it ->]. simpl.
  destruct c; try reflexivity. congruence.
Qed.

(** X21. An arrow key pressed in a cell of a table of well-typed rows
    leaves the items as they are and moves the focus to an input of the
    table: a row that exists, a column that has an input, and at most one
    step away from the cell the key was pressed in. *)
Theorem handleKeyDown_focus_in_grid (e : KeyboardEvent) (index : nat) (f : column)
    (newId : string) (its : list InvoiceItem.t) :
  index < length its ->
  bound_field f = true ->
  is_arrow (key_of e) = true ->
  exists r c,
    handleKeyDown e index (Some f) newId (item_array its) = (item_array its, Some (r, c))
    /\ r < length its
    /\ c <> C_totalAmount
    /\ (Z.abs (Z.of_nat r - Z.of_nat index) + Z.abs (indexOf c - indexOf f) <= 1)%Z.
Proof.
  intros Hi Hf Hk. unfold handleKeyDown.
  assert (Hd : ctrlKey e && match key_of e with Key_d => true | _ => false end = false).
  { destruct (key_of e); try discriminate; apply andb_false_r. }
  rewrite Hd, Hk, length_item_array. clear Hd.
  destruct (key_of e) eqn:Ek; try discriminate; unfold next_cell; simpl List.length.
  - (* ArrowUp *)
    exists (Nat.pred index), f.
    replace (Z.max 0 (Z.of_nat index - 1)) with (Z.of_nat (Nat.pred index)) by lia.
    assert (Hc : col_at (indexOf f) = Some f) by (destruct f; reflexivity).
    rewrite Hc, getCell_item_array; [|lia|destruct f; discriminate].
    repeat split; try lia. destruct f; discriminate.
  - (* ArrowDown *)
    exists (Nat.min (length its - 1) (S index)), f.
    replace (Z.min (Z.of_nat (length its) - 1) (Z.of_nat index + 1))
      with (Z.of_nat (Nat.min (length its - 1) (S index))) by lia.
    assert (Hc : col_at (indexOf f) = Some f) by (destruct f; reflexivity).
    rewrite Hc, getCell_item_array; [|lia|destruct f; discriminate].
    repeat split; try lia. destruct f; discriminate.
  - (* ArrowLeft *)
    assert (Hc : exists c, col_at (Z.max 0 (indexOf f - 1)) = Some c
                           /\ c <> C_totalAmount
                           /\ (Z.abs (indexOf c - indexOf f) <= 1)%Z).
    { destruct f; try discriminate; eexists;
        (split; [reflexivity|split; [discriminate|simpl; lia]]). }
    destruct Hc as (c & -> & Hc & Hd). exists index, c.
    rewrite getCell_item_array by assumption. repeat split; try assumption. lia.
  - (* ArrowRight *)
    assert (Hc : exists c, col_at (Z.min (7 - 1) (indexOf f + 1)) = Some c
                           /\ c <> C_totalAmount
                           /\ (Z.abs (indexOf c - indexOf f) <= 1)%Z).
    { destruct f; try discriminate; eexists;
        (split; [reflexivity|split; [discriminate|simpl; lia]]). }
    change (Z.of_nat 7) with 7%Z.
    destruct Hc as (c & -> & Hc & Hd). exists index, c.
    rewrite getCell_item_array by assumption. repeat split; try assumption. lia.
Qed.

Lemma handleKeyDown_focus_in_grid_witness :
  exists r c,
    handleKeyDown (mkKey false ArrowDown) 0 (Some C_rate) "p7w2m4c"
      (item_array [typed_row 100 2 0; blank_item "a5d8e0f"])
    = (item_array [typed_row 100 2 0; blank_item "a5d8e0f"], Some (r, c))
    /\ r < 2
    /\ c <> C_totalAmount
    /\ (Z.abs (Z.of_nat r - 0) + Z.abs (indexOf c - 2) <= 1)%Z.
Proof.
  apply (handleKeyDown_focus_in_grid (mkKey false ArrowDown) 0 C_rate "p7w2m4c"
           [typed_row 100 2 0; blank_item "a5d8e0f"]).
  - simpl. lia.
  - reflexivity.
  - reflexivity.
Defined.

(** X22. At the edges of the table the focus stays where it is: arrow up
    in the first row, arrow down in the last row and arrow left in the
    name column give the focus back to the cell the key was pressed in. *)
Theorem handleKeyDown_clamps_at_edges (e : KeyboardEvent) (index : nat) (f : column)
    (newId : string) (its : list InvoiceItem.t) :
  index < length its ->
  bound_field f = true ->
  (key_of e = ArrowUp /\ index = 0)
  \/ (key_of e = ArrowDown /\ S index = length its)
  \/ (key_of e = ArrowLeft /\ f = C_name) ->
  snd (handleKeyDown e index (Some f) newId (item_array its)) = Some (index, f).
Proof.
  intros Hi Hf Hedge. unfold handleKeyDown. simpl snd.
  rewrite length_item_array.
  assert (Hc : col_at (indexOf f) = Some f) by (destruct f; reflexivity).
  assert (Hn : f <> C_totalAmount) by (destruct f; discriminate).
  destruct Hedge as [[-> ->]|[[-> Hl]|[-> ->]]]; simpl is_arrow; cbv iota;
    unfold next_cell.
  - change (Z.max 0 (Z.of_nat 0 - 1)) with (Z.of_nat 0).
    rewrite Hc. apply getCell_item_array; assumption.
  - replace (Z.min (Z.of_nat (length its) - 1) (Z.of_nat index + 1))
      with (Z.of_nat index) by lia.
    rewrite Hc. apply getCell_item_array; assumption.
  - apply (getCell_item_array its index C_name); [assumption|discriminate].
Qed.

Lemma handleKeyDown_clamps_at_edges_witness :
  snd (handleKeyDown (mkKey false ArrowDown) 1 (Some C_qty) "p7w2m4c"
         (item_array [typed_row 100 2 0; blank_item "a5d8e0f"]))
  = Some (1, C_qty).
Proof.
  apply (handleKeyDown_clamps_at_edges (mkKey false ArrowDown) 1 C_qty "p7w2m4c"
           [typed_row 100 2 0; blank_item "a5d8e0f"]).
  - simpl. lia.
  - reflexivity.
  - right. left. split; reflexivity.
Defined.

End NavigationFacts.

(** ** The session and the screens of [App] *)

Section SessionFacts.

(** X23. The key of a user's invoices is never the key of the session,
    whatever the username, and two usernames never share a key. *)
Theorem storage_keys_distinct (username other : string) :
  DATA_PREFIX +:+ username <> USER_KEY
  /\ (DATA_PREFIX +:+ username = DATA_PREFIX +:+ other -> username = other).
Proof.
  split.
  - unfold DATA_PREFIX, USER_KEY. simpl. discriminate.
  - unfold DATA_PREFIX. simpl. intros H. injection H. trivial.
Qed.

Lemma handle_invariant (ab : App * Browser) (ev : event) :
  app_invariant ab -> app_invariant (handle ab ev).
Proof.
  destruct ab as [[u v i] b]. unfold app_invariant, handle, render. simpl.
  intros (Hu & Hv & Hi).
  destruct ev as [username password| |invoiceId| |]; destruct u as [name|]; destruct v;
    simpl; try (repeat split; (assumption || discriminate || reflexivity)).
  - destruct (decide _); simpl; repeat split; auto.
  - destruct (decide _); simpl; repeat split; auto; discriminate.
Qed.

Lemma fold_handle_invariant (events : list event) (ab : App * Browser) :
  app_invariant ab -> app_invariant (fold_left handle events ab).
Proof.
  revert ab. induction events as [|ev events IH]; intros ab H; simpl; [exact H|].
  apply IH, handle_invariant, H.
Qed.

(** X24. Whatever the user does from the moment [App] is mounted (signing
    in, signing out, opening an invoice, going back, reloading the page),
    the user [App] holds is the one stored in the session, so a reload shows
    the login screen exactly when the login screen was shown; and the
    dashboard is never shown with an invoice still selected. *)
Theorem app_user_is_session (b : Browser) (events : list event) :
  let '(a, b') := run_app b events in
  user a = getCurrentUser b'
  /\ (render (mountApp b') = LoginScreen <-> render a = LoginScreen)
  /\ (render a = DashboardScreen -> selectedInvoiceId a = None).
Proof.
  pose proof (fold_handle_invariant events (mountApp b, b)) as H.
  unfold run_app. destruct (fold_left handle events (mountApp b, b)) as [a b'].
  destruct H as (Hu & Hv & Hi).
  { unfold app_invariant. simpl. auto. }
  simpl in *. split; [exact Hu|]. split.
  - unfold render, mountApp. simpl. rewrite <- Hu.
    destruct (user a); [|tauto]. destruct (currentView a); split; discriminate.
  - unfold render. destruct (user a); [|discriminate].
    destruct (currentView a) eqn:E; [auto|discriminate].
Qed.

(** X25. Signing in with a non-empty name and password and then reloading
    the page shows the dashboard of that user; signing out after that and
    reloading shows the login screen, with no session left in the browser. *)
Theorem session_survives_reload (b : Browser) (username password : string) :
  username <> EmptyString -> password <> EmptyString ->
  getCurrentUser b = None ->
  let '(a1, b1) := run_app b [Submit username password; Reload] in
  let '(a2, b2) := run_app b [Submit username password; ClickLogout; Reload] in
  user a1 = Some username /\ render a1 = DashboardScreen
  /\ getCurrentUser b2 = None /\ render a2 = LoginScreen.
Proof.
  intros Hn Hp Hs. unfold run_app, mountApp, handle, render. simpl.
  rewrite Hs. simpl.
  destruct (decide _) as [[?|?]|_]; [contradiction..|]. simpl. auto.
Qed.

Lemma session_survives_reload_witness :
  let b := mkBrowser None (saveInvoice "asif" (InvoiceObj.of_invoice march_invoice) ∅) in
  let '(a1, _) := run_app b [Submit "asif" "s3cret"; Reload] in
  let '(a2, _) := run_app b [Submit "asif" "s3cret"; ClickLogout; Reload] in
  render a1 = DashboardScreen /\ render a2 = LoginScreen.
Proof.
  pose proof (session_survives_reload
                (mkBrowser None (saveInvoice "asif" (InvoiceObj.of_invoice march_invoice) ∅))
                "asif" "s3cret") as H.
  simpl in *. destruct H as (_ & H1 & _ & H2); [discriminate|discriminate|reflexivity|].
  split; [exact H1|exact H2].
Defined.

End SessionFacts.

(** ** The dashboard's search *)

Section SearchFacts.

Variable toLowerCase : string -> string.

Lemma includes_empty (s : string) : includes s EmptyString = true.
Proof. destruct s; reflexivity. Qed.

Lemma filter_map_commute {A} (P : A -> Prop) `{!forall x, Decision (P x)}
    (f : A -> A) (l : list A) :
  (forall x, x ∈ l -> P (f x) <-> P x) ->
  filter P (map f l) = map f (filter P l).
Proof.
  induction l as [|x l IH]; intros Hall; [reflexivity|]. simpl.
  assert (Hx : P (f x) <-> P x) by (apply Hall; left).
  assert (Hl : filter P (map f l) = map f (filter P l)).
  { apply IH. intros y Hy. apply Hall. by right. }
  destruct (decide (P x)) as [Hp|Hp].
  - rewrite (filter_cons_True P (f x)), (filter_cons_True P x) by tauto.
    simpl. by rewrite Hl.
  - rewrite (filter_cons_False P (f x)), (filter_cons_False P x) by tauto.
    exact Hl.
Qed.

(** With distinct ids, two listed invoices of one id are one invoice. *)
Lemma listed_same_id (l : list InvoiceObj.t) (x y : InvoiceObj.t) :
  NoDup (ids l) -> x ∈ l -> y ∈ l -> InvoiceObj.id x = InvoiceObj.id y -> x = y.
Proof.
  intros Hnd [i Hi]%list_elem_of_lookup [j Hj]%list_elem_of_lookup Hid.
  assert (i = j) as ->.
  { apply (NoDup_lookup (ids l) i j (InvoiceObj.id x) Hnd).
    - by rewrite ids_lookup, Hi.
    - by rewrite ids_lookup, Hj, Hid. }
  congruence.
Qed.

(** X26. With nothing typed in the search box the dashboard lists every
    invoice it holds, in the order it holds them, whatever their names and
    dates are. *)
Theorem filteredInvoices_empty_term (invoices : list InvoiceObj.t) :
  filteredInvoices toLowerCase invoices EmptyString = invoices.
Proof.
  unfold filteredInvoices.
  induction invoices as [|inv invoices IH]; [reflexivity|].
  rewrite filter_cons_True; [by rewrite IH|].
  rewrite includes_empty. apply orb_true_r.
Qed.

(** X27. Toggling the status of a listed invoice does not change which
    invoices the search shows, nor their order: filtering the updated list
    gives the filtered list with that one invoice updated. *)
Theorem toggleStatus_view_filtered (invoice : InvoiceObj.t)
    (invoices : list InvoiceObj.t) (searchTerm : string) :
  NoDup (ids invoices) ->
  invoice ∈ invoices ->
  filteredInvoices toLowerCase (toggleStatus_view invoice invoices) searchTerm
  = toggleStatus_view invoice (filteredInvoices toLowerCase invoices searchTerm).
Proof.
  intros Hnd Hin. unfold filteredInvoices, toggleStatus_view.
  apply (filter_map_commute
           (fun inv => includes (toLowerCase (InvoiceObj.name inv)) (toLowerCase searchTerm)
                       || includes (InvoiceObj.date inv) searchTerm = true)).
  intros x Hx. destruct (decide _) as [Hid|_]; [|reflexivity].
  rewrite (listed_same_id invoices x invoice Hnd Hx Hin Hid). reflexivity.
Qed.

End SearchFacts.

Lemma toggleStatus_view_filtered_witness :
  filteredInvoices (fun s => s)
    (toggleStatus_view (InvoiceObj.of_invoice march_invoice)
       [InvoiceObj.of_invoice march_invoice]) "2026"
  = toggleStatus_view (InvoiceObj.of_invoice march_invoice)
      (filteredInvoices (fun s => s) [InvoiceObj.of_invoice march_invoice] "2026").
Proof.
  apply (toggleStatus_view_filtered (fun s => s)).
  - unfold ids. simpl. apply NoDup_singleton.
  - apply list_elem_of_singleton. reflexivity.
Defined.

(** ** The balance *)

Section BalanceFacts.
Local Open Scope float_scope.

Lemma sub_0_r (x : float) : x - 0 = x.
Proof.
  apply Prim2SF_inj. rewrite FloatAxioms.sub_spec.
  destruct (Prim2SF x) as [[]|[]| |s m e]; reflexivity.
Qed.

Lemma add_0_l_finite (x : float) (s : bool) (m : positive) (e : Z) :
  Prim2SF x = S754_finite s m e -> 0 + x = x.
Proof.
  intros E. apply Prim2SF_inj. rewrite FloatAxioms.add_spec, E. reflexivity.
Qed.

Lemma sub_diag_is0 (x : float) : isFinite x = true -> is0 (x - x) = true.
Proof.
  unfold isFinite. intros Hx.
  apply (zero_is0 _ false). rewrite FloatAxioms.sub_spec.
  destruct (Prim2SF x) as [[]|[]| |s m e] eqn:E; try discriminate; try reflexivity.
  unfold SF64sub, SFsub. rewrite Z.min_id, Z.sub_diag. reflexivity.
Qed.

(** X28. On an invoice with no payment rows the remaining balance is the
    grand total itself, whatever the total is. *)
Theorem remainingBalance_no_payments (st : Editor) :
  payments st = [] ->
  remainingBalance st = grandTotal (items st).
Proof.
  intros H. unfold remainingBalance, totalPaid. rewrite H.
  destruct (grandTotal (items st)) as [g|]; [|reflexivity].
  simpl. by rewrite sub_0_r.
Qed.

Lemma remainingBalance_no_payments_witness :
  remainingBalance (paid_editor []) = Some 171.
Proof.
  rewrite (remainingBalance_no_payments (paid_editor [])); reflexivity.
Defined.

(** X29. When the only payment row holds the grand total, and that total
    is a finite number, the remaining balance is zero. *)
Theorem remainingBalance_paid_in_full (st : Editor) (p : PaymentRow.t) (g : float) :
  grandTotal (items st) = Some g ->
  isFinite g = true ->
  payments st = payment_array [p] ->
  PaymentRow.amount p = g ->
  exists z, remainingBalance st = Some z /\ is0 z = true.
Proof.
  intros Hg Hfin Hp Ha. unfold remainingBalance, totalPaid.
  rewrite Hg, Hp. simpl. rewrite Ha. eexists. split; [reflexivity|].
  pose proof Hfin as Hfin'. unfold isFinite in Hfin'.
  destruct (Prim2SF g) as [s|s| |s m e] eqn:E; try discriminate.
  - assert (H0 : is0 g = true) by (by apply (zero_is0 _ s)).
    rewrite (add_0_is0 g H0), sub_0_r. exact H0.
  - rewrite (add_0_l_finite g s m e E). by apply sub_diag_is0.
Qed.

Lemma remainingBalance_paid_in_full_witness :
  exists z, remainingBalance (paid_editor [171]) = Some z /\ is0 z = true.
Proof.
  apply (remainingBalance_paid_in_full (paid_editor [171])
           (PaymentRow.mk "p7w2m4c" "cash" 171) 171); reflexivity.
Defined.

End BalanceFacts.
